(** * The XNLI entailment notebook (examples/entailment/entailment_xnli_bert_azureml.ipynb)

    A shallow embedding of the notebook's own cells and of the training
    script [train.py] that one of its cells writes.  Python code that
    raises is embedded in a state-and-exception monad; the services the
    notebook talks to (file system, AzureML workspace) are explicit
    states. *)

From Stdlib Require Import ZArith Ascii String List Lia.
From Stdlib Require Import Floats.PrimFloat.
From stdpp Require Import base tactics option list strings gmap fin_maps pretty sorting.

Local Open Scope Z_scope.
Local Open Scope string_scope.

(** ** Python outcomes: a value or a raised exception *)

Module Py.

(** The exceptions the embedded code can raise. *)
Inductive exn : Type :=
| NameError (name : string)
| SystemExit (code : Z)
| FileNotFoundError
| FileExistsError
| NotADirectoryError
| IndexError
| AttributeError (name : string)
| TypeError
| ComputeTargetException.

(** [Hangs]: a blocking call whose condition never comes. *)
Inductive outcome (A : Type) : Type :=
| Returned (a : A)
| Raised (e : exn)
| Hangs.
Arguments Returned {A} a.
Arguments Raised {A} e.
Arguments Hangs {A}.

(** A statement runs on a state [S]; an exception keeps the effects that
    happened before it. *)
Definition M (S A : Type) : Type := S → outcome A * S.

Definition ret {S A} (a : A) : M S A := λ s, (Returned a, s).

Definition bind {S A B} (m : M S A) (k : A → M S B) : M S B :=
  λ s, match m s with
       | (Returned a, s') => k a s'
       | (Raised e, s') => (Raised e, s')
       | (Hangs, s') => (Hangs, s')
       end.

Definition raise {S A} (e : exn) : M S A := λ s, (Raised e, s).
Definition get {S} : M S S := λ s, (Returned s, s).
Definition modify {S} (f : S → S) : M S unit := λ s, (Returned tt, f s).

(** [try: body  except E: handler], where [catches] says which
    exceptions the clause names. *)
Definition try_except {S A} (body : M S A) (catches : exn → bool)
    (handler : M S A) : M S A :=
  λ s, match body s with
       | (Returned a, s') => (Returned a, s')
       | (Raised e, s') => if catches e then handler s' else (Raised e, s')
       | (Hangs, s') => (Hangs, s')
       end.

(** [for x in xs: body x] *)
Fixpoint for_each {S A} (xs : list A) (body : A → M S unit) : M S unit :=
  match xs with
  | [] => ret tt
  | x :: xs' => bind (body x) (λ _, for_each xs' body)
  end.

#[global] Instance M_ret {S} : MRet (M S) := λ A, @ret S A.
#[global] Instance M_bind {S} : MBind (M S) := λ A B k m, @bind S A B m k.

End Py.
Export Py.

(** ** Python's [argparse], as far as [train.py] uses it

    [ArgumentParser()] with the default prefix character, abbreviations
    allowed and the automatic help option; optional arguments only.  The
    parser first classifies every string of the command line, then
    consumes the optionals from left to right. *)

Module Argparse.

Inductive value : Type :=
| VInt (z : Z)
| VFloat (f : float)
| VBool (b : bool).

(** The [action=] of an argument.  [store] carries the [type=] converter
    ([None] stands for the converter raising [ValueError]). *)
Inductive action : Type :=
| store (type : string → option value)
| store_true
| help.

Record argument : Type := {
  option_string : string;
  dest : string;
  act : action;
  default : option value   (* [None]: [argparse.SUPPRESS] *)
}.

Abbreviation parser := (list (string * argument)).
Abbreviation namespace := (gmap string value).

Fixpoint lstrip_dashes (s : string) : string :=
  match s with
  | String "-" s' => lstrip_dashes s'
  | _ => s
  end.

Fixpoint replace_dashes (s : string) : string :=
  match s with
  | "" => ""
  | String c s' => String (if Ascii.eqb c "-" then "_"%char else c) (replace_dashes s')
  end.

(** [ArgumentParser()]: the help action under its two option strings. *)
Definition ArgumentParser : parser :=
  let h o := {| option_string := o; dest := "help"; act := help; default := None |} in
  [("-h", h "-h"); ("--help", h "--help")].

(** [parser.add_argument(flag, ...)] for one optional flag; the
    destination is the flag without its dashes, inner dashes as
    underscores. *)
Definition add_argument (p : parser) (flag : string) (a : action) (d : value) : parser :=
  (p ++ [(flag, {| option_string := flag;
                   dest := replace_dashes (lstrip_dashes flag);
                   act := a; default := Some d |})])%list.

Definition option_string_action (p : parser) (o : string) : option argument :=
  snd <$> List.find (λ oa, String.eqb (fst oa) o) p.

(** [s.split('=', 1)] when ['=' in s]. *)
Fixpoint split_eq (s : string) : option (string * string) :=
  match s with
  | "" => None
  | String c s' =>
      if Ascii.eqb c "=" then Some ("", s')
      else match split_eq s' with
           | Some (l, r) => Some (String c l, r)
           | None => None
           end
  end.

Fixpoint contains_space (s : string) : bool :=
  match s with
  | "" => false
  | String c s' => Ascii.eqb c " " || contains_space s'
  end.

Definition is_digit (c : ascii) : bool :=
  bool_decide (is_Some (Ascii.is_nat c)).

Fixpoint all_digits (s : string) : bool :=
  match s with
  | "" => true
  | String c s' => is_digit c && all_digits s'
  end.

Fixpoint digits_then_fraction (s : string) : bool :=
  match s with
  | "" => false
  | String c s' =>
      if Ascii.eqb c "." then negb (String.eqb s' "") && all_digits s'
      else is_digit c && digits_then_fraction s'
  end.

(** The parser's negative-number pattern, [^-\d+$|^-\d*\.\d+$]. *)
Definition negative_number (s : string) : bool :=
  match s with
  | String "-" s' =>
      (negb (String.eqb s' "") && all_digits s') || digits_then_fraction s'
  | _ => false
  end.

(** What [_parse_optional] makes of one string. *)
Inductive parsed : Type :=
| positional
| optional (a : option argument) (o : string) (explicit_arg : option string)
| ambiguous.

Definition second_is_dash (s : string) : bool :=
  match s with
  | String _ (String "-" _) => true
  | _ => false
  end.

(** [_get_option_tuples]: the options a string abbreviates. *)
Definition get_option_tuples (p : parser) (s : string)
    : list (argument * string * option string) :=
  if second_is_dash s then
    let '(option_prefix, explicit_arg) :=
      match split_eq s with
      | Some (l, r) => (l, Some r)
      | None => (s, None)
      end in
    omap (λ oa : string * argument,
            if String.prefix option_prefix (fst oa)
            then Some (snd oa, fst oa, explicit_arg) else None) p
  else
    let short_option_prefix := substring 0 2 s in
    let short_explicit_arg := substring 2 (String.length s - 2) s in
    omap (λ oa : string * argument,
            if String.eqb (fst oa) short_option_prefix
            then Some (snd oa, fst oa, Some short_explicit_arg)
            else if String.prefix s (fst oa)
            then Some (snd oa, fst oa, None) else None) p.

Definition parse_optional (p : parser) (s : string) : parsed :=
  match s with
  | "" => positional
  | String c rest =>
      if negb (Ascii.eqb c "-") then positional
      else match option_string_action p s with
      | Some a => optional (Some a) s None
      | None =>
          if String.eqb rest "" then positional
          else
            let by_eq :=
              match split_eq s with
              | Some (o, e) =>
                  (λ a, optional (Some a) o (Some e)) <$> option_string_action p o
              | None => None
              end in
            match by_eq with
            | Some r => r
            | None =>
                match get_option_tuples p s with
                | _ :: _ :: _ => ambiguous
                | [(a, o, e)] => optional (Some a) o e
                | [] =>
                    if negative_number s then positional
                    else if contains_space s then positional
                    else optional None s None
                end
            end
      end
  end.

(** The classified command line: ['A'], ['O'] and the ['-'] of a ["--"]. *)
Inductive item : Type :=
| IA (s : string)
| IO (a : option argument) (o : string) (explicit_arg : option string)
| IDash.

(** The first pass; [None] is the "ambiguous option" error. *)
Fixpoint classify (p : parser) (after_dash : bool) (argv : list string)
    : option (list item) :=
  match argv with
  | [] => Some []
  | s :: argv' =>
      if after_dash then cons (IA s) <$> classify p true argv'
      else if String.eqb s "--" then cons IDash <$> classify p true argv'
      else match parse_optional p s with
           | positional => cons (IA s) <$> classify p false argv'
           | optional a o e => cons (IO a o e) <$> classify p false argv'
           | ambiguous => None
           end
  end.

Definition error {A} : outcome A := Raised (SystemExit 2).

(** [take_action] of a [store] with its one argument string. *)
Definition take_store (a : argument) (type : string → option value)
    (arg_string : string) (ns : namespace) : outcome namespace :=
  match type arg_string with
  | Some v => Returned (<[dest a := v]> ns)
  | None => error
  end.

(** [take_action] of an option that takes no argument. *)
Definition take_flag (a : argument) (ns : namespace) : outcome namespace :=
  match act a with
  | help => Raised (SystemExit 0)
  | _ => Returned (<[dest a := VBool true]> ns)
  end.

Fixpoint take_flags (l : list argument) (ns : namespace) : outcome namespace :=
  match l with
  | [] => Returned ns
  | a :: l' =>
      match take_flag a ns with
      | Returned ns' => take_flags l' ns'
      | other => other
      end
  end.

(** A single-dash option that takes no argument but carries an explicit
    one: the tail is read as further single-dash options.  The result
    is the options passed on the way, the last option and the explicit
    argument left for it. *)
Fixpoint short_options (p : parser) (a : argument) (e : string)
    : outcome (list argument * argument * option string) :=
  match act a with
  | store _ => Returned ([], a, Some e)
  | _ =>
      match e with
      | "" => Raised IndexError
      | String c e' =>
          match option_string_action p (String "-" (String c "")) with
          | None => error
          | Some a' =>
              if String.eqb e' "" then Returned ([a], a', None)
              else match short_options p a' e' with
                   | Returned (l, last, x) => Returned (a :: l, last, x)
                   | other => other
                   end
          end
      end
  end.

Definition explicit_argument (p : parser) (a : argument) (o e : string)
    : outcome (list argument * argument * option string) :=
  match act a with
  | store _ => Returned ([], a, Some e)
  | _ => if second_is_dash o then error else short_options p a e
  end.

(** The second pass ([consume_optional] in a loop; the parser has no
    positional argument, so every string left over is an extra).
    [extras] records that some string was left over. *)
Fixpoint consume (p : parser) (items : list item) (ns : namespace)
    (extras : bool) : outcome namespace :=
  match items with
  | [] => if extras then error else Returned ns
  | IA _ :: rest => consume p rest ns true
  | IDash :: rest => consume p rest ns true
  | IO None _ _ :: rest => consume p rest ns true
  | IO (Some a) o e :: rest =>
      match match e with
            | Some e => explicit_argument p a o e
            | None => Returned ([], a, None)
            end with
      | Raised x => Raised x
      | Hangs => Hangs
      | Returned (firsts, last, x) =>
          match act last, x with
          | store type, Some v =>
              match take_flags firsts ns with
              | Raised x => Raised x
              | Hangs => Hangs
              | Returned ns1 =>
                  match take_store last type v ns1 with
                  | Returned ns2 => consume p rest ns2 extras
                  | Raised x => Raised x
                  | Hangs => Hangs
                  end
              end
          | store type, None =>
              match rest with
              | IA v :: IDash :: rest' | IA v :: rest' | IDash :: IA v :: rest' =>
                  match take_flags firsts ns with
                  | Raised x => Raised x
                  | Hangs => Hangs
                  | Returned ns1 =>
                      match take_store last type v ns1 with
                      | Returned ns2 => consume p rest' ns2 extras
                      | Raised x => Raised x
                      | Hangs => Hangs
                      end
                  end
              | _ => error
              end
          | _, _ =>
              match rest with
              | IDash :: rest' | rest' =>
                  match take_flags (firsts ++ [last])%list ns with
                  | Raised x => Raised x
                  | Hangs => Hangs
                  | Returned ns1 => consume p rest' ns1 extras
                  end
              end
          end
      end
  end.

(** The namespace before any string is read: every default. *)
Definition defaults (p : parser) : namespace :=
  fold_right (λ oa ns, match default (snd oa) with
                       | Some v => <[dest (snd oa) := v]> ns
                       | None => ns
                       end) ∅ p.

Definition parse_args (p : parser) (argv : list string) : outcome namespace :=
  match classify p false argv with
  | Some items => consume p items (defaults p) false
  | None => error
  end.

(** The destination a command-line string selects: by the full option
    string, by an abbreviation of it, or by either followed by [=value]. *)
Definition selects (p : parser) (s : string) : option string :=
  match parse_optional p s with
  | optional (Some a) _ _ => Some (dest a)
  | _ => None
  end.

(** No string of the command line selects the destination [d]. *)
Definition omits (p : parser) (argv : list string) (d : string) : Prop :=
  ∀ s, s ∈ argv → selects p s ≠ Some d.

(** What is left of the command line after an option took its argument. *)
Definition rest_of (rest rest' : list item) : Prop :=
  (length rest' ≤ length rest)%nat ∧ ∀ P : item → Prop, Forall P rest → Forall P rest'.

(** An option item names an entry of the parser. *)
Definition item_ok (p : parser) (it : item) : Prop :=
  match it with
  | IO (Some a) o _ => (o, a) ∈ p
  | _ => True
  end.

(** The destination an item writes to. *)
Definition item_dest (it : item) : option string :=
  match it with
  | IO (Some a) _ _ => Some (dest a)
  | _ => None
  end.

End Argparse.

(** *** The items of the classified command line *)

Module ArgparseItems.
Import Argparse.

(** An item an option can take as its argument. *)
Definition is_value (it : item) : Prop :=
  match it with
  | IO _ _ _ => False
  | _ => True
  end.

(** An item after which [parse_args] cannot return: an option the parser
    does not have, or the help option. *)
Definition fatal (it : item) : Prop :=
  match it with
  | IO None _ _ => True
  | IO (Some a) _ _ => act a = help
  | _ => False
  end.

(** The item the first pass makes of a string before any ["--"]. *)
Definition item_of (p : parser) (s : string) : option item :=
  match parse_optional p s with
  | positional => Some (IA s)
  | optional a o e => Some (IO a o e)
  | ambiguous => None
  end.

End ArgparseItems.

(** ** [train.py], the entry-point script every worker runs *)

Module TrainPy.
Import Argparse.

(** What a worker does that is visible from outside the process: calls
    into Horovod, the dataset and classifier library, scikit-learn, and
    files it opens for writing. *)
Inductive event : Type :=
| HvdInit
| CudaSetDevice
| CudaManualSeed (seed : value)
| LoadDataset (file_split cache_dir : string) (data_percent_used : option value)
| CreateClassifier (cache_dir : string)
| CreateDataLoader (mode : string)
| CreateOptimizer (epochs : Z)
| SetEpoch (epoch : Z)
| Fit (epoch num_epochs : Z)
| Predict
| InverseTransform
| ClassificationReport
| OpenForWriting (file : string)
| JsonDump
| SaveModel.

Definition TRAIN_FILE_SPLIT := "train".
Definition TEST_FILE_SPLIT := "test".
Definition OUTPUT_DIR := "./outputs/".

(** [CACHE_DIR = "./xnli-%d" % hvd.rank()] *)
Definition CACHE_DIR (rank : Z) : string := "./xnli-" +:+ pretty rank.

(** The names the script's [import] statements bind. *)
Definition imported : list string :=
  ["hvd"; "torch"; "np"; "time"; "argparse"; "Timer"; "XnliDataset";
   "Language"; "BERTSequenceClassifier"; "classification_report"].

Abbreviation script := (M (list event)).

(** Evaluating a global name: [NameError] unless an import bound it. *)
Definition name (n : string) : script unit :=
  if bool_decide (n ∈ imported) then mret tt else raise (NameError n).

Definition emit (e : event) : script unit := modify (λ t, (t ++ [e])%list).

(** A call through the global name [n]. *)
Definition call (n : string) (e : event) : script unit := name n;; emit e.

(** [args.attr] *)
Definition attr (args : namespace) (a : string) : script value :=
  match args !! a with
  | Some v => mret v
  | None => raise (AttributeError a)
  end.

Definition attr_int (args : namespace) (a : string) : script Z :=
  v ← attr args a;
  match v with
  | VInt z => mret z
  | _ => raise TypeError
  end.

Definition attr_bool (args : namespace) (a : string) : script bool :=
  v ← attr args a;
  match v with
  | VBool b => mret b
  | _ => raise TypeError
  end.

(** [range(1, n + 1)] *)
Definition range_from_1 (n : Z) : list Z := Z.of_nat <$> seq 1 (Z.to_nat n).

Section Script.
(** Python's [int] and [float] applied to a string ([None]: they raise
    [ValueError]), and what the worker finds around it. *)
Variable py_int : string → option Z.
Variable py_float : string → option float.
Variable rank : Z.
Variable cuda_is_available : bool.

Definition parser : Argparse.parser :=
  let p := ArgumentParser in
  let p := add_argument p "--seed" (store (λ s, VInt <$> py_int s)) (VInt 42) in
  let p := add_argument p "--epochs" (store (λ s, VInt <$> py_int s)) (VInt 2) in
  let p := add_argument p "--no-cuda" store_true (VBool false) in
  let p := add_argument p "--data_percent_used"
             (store (λ s, VFloat <$> py_float s)) (VFloat 1.0) in
  p.

(** The block under [if hvd.rank() == 0:]. *)
Definition evaluate_and_save : script unit :=
  (* test_dataset = XnliDataset(file_split=TEST_FILE_SPLIT, cache_dir=CACHE_DIR, ...) *)
  call "XnliDataset" (LoadDataset TEST_FILE_SPLIT (CACHE_DIR rank) None);;
  (* test_loader = classifier.create_data_loader(test_dataset, mode="test") *)
  emit (CreateDataLoader "test");;
  (* predictions, pred_labels = classifier.predict(test_loader, NUM_GPUS) *)
  emit Predict;;
  (* predictions = label_encoder.inverse_transform(predictions) *)
  emit InverseTransform;;
  (* results = classification_report(pred_labels, predictions, ...) *)
  call "classification_report" ClassificationReport;;
  (* result_file = os.path.join(OUTPUT_DIR, "results.json") *)
  name "os";;
  let result_file := OUTPUT_DIR +:+ "results.json" in
  (* with open(result_file, "w+") as fp: json.dump(results, fp) *)
  emit (OpenForWriting result_file);;
  call "json" JsonDump;;
  (* classifier.save_model() *)
  emit SaveModel.

Definition train_py (argv : list string) : script unit :=
  (* print("Torch version:", torch.__version__) *)
  name "torch";;
  (* hvd.init() *)
  call "hvd" HvdInit;;
  (* PRETRAINED_BERT_LNG = Language.ENGLISH *)
  name "Language";;
  (* CACHE_DIR = "./xnli-%d" % hvd.rank() *)
  name "hvd";;
  (* parser = argparse.ArgumentParser(); ...; args = parser.parse_args() *)
  name "argparse";;
  args ← (λ t, (parse_args parser argv, t));
  (* args.cuda = not args.no_cuda and torch.cuda.is_available() *)
  no_cuda ← attr_bool args "no_cuda";
  (if no_cuda then mret tt else name "torch");;
  let cuda := negb no_cuda && cuda_is_available in
  (* if args.cuda:
         torch.cuda.set_device(hvd.local_rank())
         torch.cuda.manual_seed(args.seed) *)
  (if cuda then
     name "torch";;
     call "hvd" CudaSetDevice;;
     name "torch";;
     seed ← attr args "seed";
     emit (CudaManualSeed seed)
   else mret tt);;
  (* train_dataset = XnliDataset(file_split=TRAIN_FILE_SPLIT, cache_dir=CACHE_DIR,
         ..., data_percent_used=args.data_percent_used) *)
  name "XnliDataset";;
  data_percent_used ← attr args "data_percent_used";
  emit (LoadDataset TRAIN_FILE_SPLIT (CACHE_DIR rank) (Some data_percent_used));;
  (* num_labels = len(np.unique(train_dataset.labels)) *)
  name "np";;
  (* classifier = BERTSequenceClassifier(language=Language.ENGLISH, ...,
         cache_dir=CACHE_DIR, use_distributed=True) *)
  name "BERTSequenceClassifier";;
  name "Language";;
  emit (CreateClassifier (CACHE_DIR rank));;
  (* train_loader = classifier.create_data_loader(train_dataset, BATCH_SIZE, mode="train", ...) *)
  emit (CreateDataLoader "train");;
  (* num_train_optimization_steps = num_batches * args.epochs
     optimizer = classifier.create_optimizer(num_train_optimization_steps, ...) *)
  epochs ← attr_int args "epochs";
  emit (CreateOptimizer epochs);;
  (* with Timer() as t:
         for epoch in range(1, args.epochs + 1):
             train_loader.sampler.set_epoch(epoch)
             classifier.fit(train_loader, epoch=epoch, num_epochs=args.epochs, ...) *)
  name "Timer";;
  epochs ← attr_int args "epochs";
  for_each (range_from_1 epochs) (λ epoch,
    emit (SetEpoch epoch);;
    epochs ← attr_int args "epochs";
    emit (Fit epoch epochs));;
  (* if hvd.rank() == 0: *)
  name "hvd";;
  if bool_decide (rank = 0) then evaluate_and_save else mret tt.

(** One worker process: the script from an empty trace. *)
Definition worker (argv : list string) : outcome unit * list event :=
  train_py argv [].

End Script.

(** What the four [add_argument] calls declare, besides the help option. *)
Inductive declared (py_int : string → option Z) (py_float : string → option float)
    : string → argument → Prop :=
| declared_help o a : act a = help → declared py_int py_float o a
| declared_seed a :
    dest a = "seed" → act a = store (λ s, VInt <$> py_int s) →
    default a = Some (VInt 42) → declared py_int py_float "--seed" a
| declared_epochs a :
    dest a = "epochs" → act a = store (λ s, VInt <$> py_int s) →
    default a = Some (VInt 2) → declared py_int py_float "--epochs" a
| declared_no_cuda a :
    dest a = "no_cuda" → act a = store_true →
    default a = Some (VBool false) → declared py_int py_float "--no-cuda" a
| declared_data_percent_used a :
    dest a = "data_percent_used" → act a = store (λ s, VFloat <$> py_float s) →
    default a = Some (VFloat 1.0) → declared py_int py_float "--data_percent_used" a.

(** The namespace [parse_args] returns: exactly the four attributes,
    each of its type. *)
Definition typed (ns : namespace) : Prop :=
  (∃ z, ns !! "seed" = Some (VInt z)) ∧
  (∃ z, ns !! "epochs" = Some (VInt z)) ∧
  (∃ b, ns !! "no_cuda" = Some (VBool b)) ∧
  (∃ x, ns !! "data_percent_used" = Some (VFloat x)) ∧
  dom ns = {[ "seed"; "epochs"; "no_cuda"; "data_percent_used" ]}.

Definition epochs_of (ns : namespace) : Z :=
  match ns !! "epochs" with
  | Some (VInt z) => z
  | _ => 0
  end.

(** [args.cuda] *)
Definition cuda_of (ns : namespace) (cuda_is_available : bool) : bool :=
  match ns !! "no_cuda" with
  | Some (VBool b) => negb b && cuda_is_available
  | _ => false
  end.

(** The events of the training loop. *)
Definition fit_events (epochs : Z) (l : list Z) : list event :=
  l ≫= λ epoch, [SetEpoch epoch; Fit epoch epochs].

(** The calls of a worker up to the end of training, and those of the
    evaluation block up to the statement that raises. *)
Definition training_events (rank : Z) (cuda_is_available : bool)
    (ns : namespace) : list event :=
  ([HvdInit] ++
   (if cuda_of ns cuda_is_available
    then from_option (λ seed, [CudaSetDevice; CudaManualSeed seed]) [] (ns !! "seed")
    else []) ++
   from_option (λ d, [LoadDataset TRAIN_FILE_SPLIT (CACHE_DIR rank) (Some d)]) []
     (ns !! "data_percent_used") ++
   [CreateClassifier (CACHE_DIR rank); CreateDataLoader "train";
    CreateOptimizer (epochs_of ns)] ++
   fit_events (epochs_of ns) (range_from_1 (epochs_of ns)))%list.

Definition evaluation_events (rank : Z) : list event :=
  [LoadDataset TEST_FILE_SPLIT (CACHE_DIR rank) None; CreateDataLoader "test";
   Predict; InverseTransform; ClassificationReport].

(** The cache directory a call works in. *)
Definition cache_dir (e : event) : option string :=
  match e with
  | LoadDataset _ d _ | CreateClassifier d => Some d
  | _ => None
  end.


End TrainPy.

(** *** Kinds of calls in a worker's trace *)

Module TrainPyCalls.
Import TrainPy.




End TrainPyCalls.

(** ** The file system, and the [os] and [shutil] calls of the staging cell *)

Module Shutil.

(** A path is its list of components below the root; a file system maps
    the paths that exist to what is there.  The root itself always
    exists. *)
Abbreviation path := (list string).

Inductive node : Type :=
| File (content : string)
| Dir.

Abbreviation filesystem := (gmap path node).

Definition stat (fs : filesystem) (p : path) : option node :=
  match p with
  | [] => Some Dir
  | _ => fs !! p
  end.

(** [os.path.exists(p)] *)
Definition exists_ (fs : filesystem) (p : path) : bool :=
  bool_decide (is_Some (stat fs p)).

(** [os.path.join(p, name)] *)
Definition join (p : path) (name : string) : path := (p ++ [name])%list.

(** [os.path.dirname(p)] *)
Definition dirname (p : path) : path := removelast p.

(** The part of [k] below [p], when [k] is [p] or lies under it. *)
Definition relative_to (p k : path) : option path :=
  if bool_decide (p `prefix_of` k) then Some (drop (length p) k) else None.

(** [os.mkdir(p)] *)
Definition mkdir (p : path) : M filesystem unit :=
  λ fs,
    if exists_ fs p then (Raised FileExistsError, fs)
    else match stat fs (dirname p) with
         | None => (Raised FileNotFoundError, fs)
         | Some (File _) => (Raised NotADirectoryError, fs)
         | Some Dir => (Returned tt, <[p := Dir]> fs)
         end.

Definition is_FileExistsError (e : exn) : bool :=
  match e with
  | FileExistsError => true
  | _ => false
  end.

(** [os.makedirs(name)], on the reversed path: first the missing parents
    (a parent that turns up meanwhile is no error), then [name] itself. *)
Fixpoint makedirs_rev (rname : list string) : M filesystem unit :=
  match rname with
  | [] => mkdir []
  | tail :: rhead =>
      (λ fs,
         if bool_decide (rhead ≠ []) && negb (exists_ fs (reverse rhead))
         then try_except (makedirs_rev rhead) is_FileExistsError (mret tt) fs
         else (Returned tt, fs));;
      mkdir (reverse (tail :: rhead))
  end.

Definition makedirs (name : path) : M filesystem unit :=
  makedirs_rev (reverse name).

(** The file system without [p] and everything under it. *)
Definition without (p : path) (fs : filesystem) : filesystem :=
  filter (λ kv, ¬ p `prefix_of` kv.1) fs.

(** [shutil.rmtree(p)]: [p] and everything under it goes. *)
Definition rmtree (p : path) : M filesystem unit :=
  λ fs,
    match stat fs p with
    | None => (Raised FileNotFoundError, fs)
    | Some (File _) => (Raised NotADirectoryError, fs)
    | Some Dir => (Returned tt, without p fs)
    end.

(** Every entry at or under [src], written below [dst]. *)
Definition copied (src dst : path) (fs : filesystem) : filesystem :=
  map_fold (λ k v acc, match relative_to src k with
                       | Some r => <[(dst ++ r)%list := v]> acc
                       | None => acc
                       end) ∅ fs.

(** [shutil.copytree(src, dst)] (Python 3.7: [dst] must not exist): list
    [src], make [dst] with its missing parents, copy every entry.  It
    returns [dst]. *)
Definition copytree (src dst : path) : M filesystem path :=
  λ fs,
    match stat fs src with
    | None => (Raised FileNotFoundError, fs)
    | Some (File _) => (Raised NotADirectoryError, fs)
    | Some Dir =>
        match makedirs dst fs with
        | (Returned _, fs') => (Returned dst, copied src dst fs ∪ fs')
        | (Raised e, fs') => (Raised e, fs')
        | (Hangs, fs') => (Hangs, fs')
        end
    end.

End Shutil.

(** ** The staging cell of the notebook (the job packager) *)

Module Packager.
Import Shutil.

(** The cell, for the flag [DEBUG], the library tree [utils_nlp] and the
    staging directory [project_dir]:
[[
if DEBUG and os.path.exists(project_dir):
    shutil.rmtree(project_dir)
shutil.copytree("../../utils_nlp", os.path.join(project_dir, "utils_nlp"))
]] *)
Definition stage (DEBUG : bool) (utils_nlp project_dir : path)
    : M filesystem path :=
  (λ fs, if DEBUG && exists_ fs project_dir
         then rmtree project_dir fs else (Returned tt, fs));;
  copytree utils_nlp (join project_dir "utils_nlp").

(** The file system the cell leaves when [DEBUG] is set: nothing of the
    old staging directory, the directory itself, and the copy. *)
Definition staged (utils_nlp project_dir : path) (fs : filesystem) : filesystem :=
  let dst := join project_dir "utils_nlp" in
  copied utils_nlp dst (without project_dir fs)
  ∪ <[dst := Dir]> (<[project_dir := Dir]> (without project_dir fs)).

(** The notebook's values: [DEBUG = True], and the two paths as seen
    from the directory [cwd] the notebook runs in. *)
Definition DEBUG : bool := true.
Definition project_dir (cwd : path) : path := join cwd "entail_utils".
Definition utils_nlp (cwd : path) : path := join (dirname (dirname cwd)) "utils_nlp".

End Packager.

(** *** File systems that are trees *)

Module FileTree.
Import Shutil.

(** A file system is a tree: nothing is stored for the root itself, and
    whatever exists lies in a directory that exists. *)
Definition tree (fs : filesystem) : Prop :=
  fs !! [] = None ∧
  ∀ k x, is_Some (fs !! (k ++ [x])%list) → stat fs k = Some Dir.

#[global] Instance node_eq_dec : EqDecision node.
Proof. solve_decision. Defined.

End FileTree.

(** ** The report cell: [pd.DataFrame.from_dict(parsed).transpose()] *)

Module Report.

(** What [json.load] returns for the results file: an object whose values
    are objects of scalars.  A Python dict keeps its keys in the order of
    their first appearance, so it is a list of pairs read from the
    front. *)
Inductive scalar : Type :=
| Num (x : float)
| Str (s : string)
| Bool (b : bool)
| Null.

Abbreviation record := (list (string * scalar)).
Abbreviation document := (list (string * record)).

(** [d.get(k)] *)
Definition dict_get {A} (d : list (string * A)) (k : string) : option A :=
  snd <$> List.find (λ kv, String.eqb (fst kv) k) d.

(** A frame: row labels, column labels and the cells row by row; [None]
    is the missing value [NaN]. *)
Record DataFrame : Type := {
  index : list string;
  columns : list string;
  values : list (list (option scalar))
}.

(** The labels of [l] not yet [seen], each once, in the order of their
    first appearance. *)
Fixpoint fast_unique (seen l : list string) : list string :=
  match l with
  | [] => []
  | x :: l' =>
      if bool_decide (x ∈ seen) then fast_unique seen l'
      else x :: fast_unique (x :: seen) l'
  end.

(** The labels of all records. *)
Definition union_keys (parsed : document) : list string :=
  fast_unique [] (parsed ≫= λ kv : string * record, fst <$> snd kv).

(** The row labels [from_dict] derives from the inner keys.  pandas
    before 0.25 sorts them (the notebook's recorded output has the labels
    sorted); later versions keep the order of first appearance. *)
Definition union_indexes (sort : bool) (parsed : document) : list string :=
  if sort then merge_sort String.le (union_keys parsed) else union_keys parsed.

(** [pd.DataFrame.from_dict(parsed)]: one column per outer key, one row
    per inner key. *)
Definition from_dict (sort : bool) (parsed : document) : DataFrame :=
  let idx := union_indexes sort parsed in
  {| index := idx;
     columns := fst <$> parsed;
     values := (λ k, (λ kv : string * record, dict_get (snd kv) k) <$> parsed) <$> idx |}.

(** Column [j] of the cells, one entry per row. *)
Definition column_at (rows : list (list (option scalar))) (j : nat)
    : list (option scalar) :=
  (λ row, default None (row !! j)) <$> rows.

(** [df.transpose()] *)
Definition transpose (df : DataFrame) : DataFrame :=
  {| index := columns df;
     columns := index df;
     values := (λ j, column_at (values df) j) <$> seq 0 (length (columns df)) |}.

(** Position of a label. *)
Fixpoint position (l : list string) (k : string) : option nat :=
  match l with
  | [] => None
  | x :: l' => if String.eqb x k then Some 0%nat else S <$> position l' k
  end.

(** [df.loc[row, col]]; the outer [None]: no such label. *)
Definition loc (df : DataFrame) (row col : string) : option (option scalar) :=
  i ← position (index df) row;
  j ← position (columns df) col;
  r ← values df !! i;
  r !! j.

(** The cell: the frame that is printed.
[[
parsed = json.load(handle)
print(pd.DataFrame.from_dict(parsed).transpose())
]] *)
Definition report (sort : bool) (parsed : document) : outcome DataFrame :=
  Returned (transpose (from_dict sort parsed)).

(** The keys of a class record, and the same in lexicographic order. *)
Definition metric_keys : list string :=
  ["precision"; "recall"; "f1-score"; "support"].

Definition sorted_metric_keys : list string :=
  ["f1-score"; "precision"; "recall"; "support"].

Definition is_num (v : scalar) : Prop :=
  match v with
  | Num _ => True
  | _ => False
  end.

(** A results document of the fixed shape: distinct labels, the three
    average rows among them, and under every label exactly the four
    metric keys with numbers. *)
Definition well_formed (parsed : document) : Prop :=
  NoDup (fst <$> parsed) ∧
  (∀ avg, avg ∈ ["micro avg"; "macro avg"; "weighted avg"] → avg ∈ fst <$> parsed) ∧
  Forall (λ kv : string * record,
            fst <$> snd kv ≡ₚ metric_keys ∧ Forall is_num (snd <$> snd kv)) parsed.

End Report.

(** *** The shape of a frame *)

Module ReportShape.
Import Report.

(** The cells fill the labels: one row per row label, and in every row
    one cell per column label. *)
Definition rectangular (df : DataFrame) : Prop :=
  length (values df) = length (index df) ∧
  Forall (λ row, length row = length (columns df)) (values df).

End ReportShape.

(** ** The AzureML workspace, and the provisioning and submission cells

    The SDK calls are embedded by their contract: what they ask of the
    service is appended to the workspace's request log, and what the
    service will report at later polls is part of the state ([upcoming]),
    not chosen by the notebook. *)

Module AzureML.

Inductive provisioning_state : Type :=
| Creating
| Succeeded
| Failed
| Canceled.

Definition terminal (s : provisioning_state) : bool :=
  match s with
  | Creating => false
  | _ => true
  end.

(** [AmlCompute.provisioning_configuration(...)] *)
Record provisioning_configuration : Type := {
  vm_size : string;
  min_nodes : Z;
  max_nodes : Z
}.

Record cluster : Type := {
  configuration : provisioning_configuration;
  state : provisioning_state;
  upcoming : list provisioning_state
}.

Record MpiConfiguration : Type := {
  process_count_per_node : Z
}.

(** The [PyTorch] estimator of the notebook. *)
Record estimator : Type := {
  source_directory : string;
  compute_target : string;
  entry_script : string;
  script_params : list (string * float);
  node_count : Z;
  distributed_training : MpiConfiguration;
  use_gpu : bool;
  framework_version : string;
  conda_packages : list string;
  pip_packages : list string
}.

Inductive run_status : Type :=
| Queued
| Running
| Completed
| RunFailed
| RunCanceled.

Record run : Type := {
  experiment : string;
  descriptor : estimator;
  status : run_status;
  upcoming_status : list run_status
}.

Inductive request : Type :=
| GetComputeTarget (name : string)
| CreateComputeTarget (name : string) (c : provisioning_configuration)
| RefreshState (name : string)
| GetStatus (name : string)
| SubmitRun (experiment : string) (e : estimator).

Record workspace : Type := {
  compute_targets : gmap string cluster;
  runs : list run;
  log : list request
}.

Definition with_log (ws : workspace) (l : list request) : workspace :=
  {| compute_targets := compute_targets ws; runs := runs ws; log := l |}.

Definition send (r : request) : M workspace unit :=
  modify (λ ws, with_log ws (log ws ++ [r])%list).

Definition set_cluster (name : string) (c : cluster) : M workspace unit :=
  modify (λ ws, {| compute_targets := <[name := c]> (compute_targets ws);
                   runs := runs ws;
                   log := log ws |}).

(** [ComputeTarget(workspace=ws, name=name)]: the handle of an existing
    target, [ComputeTargetException] when there is none. *)
Definition ComputeTarget (name : string) : M workspace string :=
  send (GetComputeTarget name);;
  ws ← get;
  match compute_targets ws !! name with
  | Some _ => mret name
  | None => raise ComputeTargetException
  end.

(** [AmlCompute.provisioning_configuration(vm_size=..., max_nodes=...)];
    [min_nodes] keeps its default 0. *)
Definition AmlCompute_provisioning_configuration (vm_size : string)
    (max_nodes : Z) : provisioning_configuration :=
  {| vm_size := vm_size; min_nodes := 0; max_nodes := max_nodes |}.

(** [ComputeTarget.create(ws, name, config)]: the request is sent and
    the call returns; [service] is how the service will report the
    provisioning from then on. *)
Definition ComputeTarget_create (service : list provisioning_state)
    (name : string) (c : provisioning_configuration) : M workspace string :=
  send (CreateComputeTarget name c);;
  set_cluster name {| configuration := c; state := Creating; upcoming := service |};;
  mret name.

(** The polling loop: refresh until the state is terminal.  The result
    is the terminal state, what the service has left to report, and the
    number of refreshes; [None] when no terminal state ever comes. *)
Fixpoint poll (s : provisioning_state) (upcoming : list provisioning_state)
    : option (provisioning_state * list provisioning_state * nat) :=
  if terminal s then Some (s, upcoming, 0%nat)
  else match upcoming with
       | [] => None
       | s' :: upcoming' =>
           (λ r : provisioning_state * list provisioning_state * nat,
              (r.1.1, r.1.2, S r.2)) <$> poll s' upcoming'
       end.

(** [compute_target.wait_for_completion(show_output=True)]: block until
    the provisioning state is terminal; a terminal state other than
    [Succeeded] is raised. *)
Definition wait_for_completion (name : string) : M workspace unit :=
  ws ← get;
  match compute_targets ws !! name with
  | None => raise ComputeTargetException
  | Some c =>
      match poll (state c) (upcoming c) with
      | None => λ ws, (Hangs, ws)
      | Some (s, rest, n) =>
          for_each (replicate n name) (λ name, send (RefreshState name));;
          set_cluster name {| configuration := configuration c;
                              state := s; upcoming := rest |};;
          match s with
          | Succeeded => mret tt
          | _ => raise ComputeTargetException
          end
      end
  end.

(** [compute_target.get_status()] *)
Definition get_status (name : string) : M workspace cluster :=
  send (GetStatus name);;
  ws ← get;
  match compute_targets ws !! name with
  | Some c => mret c
  | None => raise ComputeTargetException
  end.

Definition is_ComputeTargetException (e : exn) : bool :=
  match e with
  | ComputeTargetException => true
  | _ => false
  end.

(** The provisioning cell:
[[
try:
    compute_target = ComputeTarget(workspace=ws, name=cluster_name)
except ComputeTargetException:
    compute_config = AmlCompute.provisioning_configuration(
        vm_size="STANDARD_NC6", max_nodes=NODE_COUNT)
    compute_target = ComputeTarget.create(ws, cluster_name, compute_config)
    compute_target.wait_for_completion(show_output=True)
print(compute_target.get_status().serialize())
]] *)
Definition provision (service : list provisioning_state)
    (cluster_name : string) (NODE_COUNT : Z) : M workspace string :=
  compute_target ←
    try_except (ComputeTarget cluster_name) is_ComputeTargetException
      (let compute_config :=
         AmlCompute_provisioning_configuration "STANDARD_NC6" NODE_COUNT in
       compute_target ← ComputeTarget_create service cluster_name compute_config;
       wait_for_completion compute_target;;
       mret compute_target);
  get_status compute_target;;
  mret compute_target.

(** The notebook's parameters. *)
Definition NODE_COUNT : Z := 4.
Definition cluster_name : string := "gpu-entail".







End AzureML.

(** * Examples *)

(** ** The notebook's directories, on a small file system *)

Module StagingExample.
Import Shutil Packager.

Definition cwd : path := ["repo"; "examples"; "entailment"].

(** A staging directory left by an earlier run: an old [train.py] and a
    copy of the library with a file the library no longer has. *)
Definition fs0 : filesystem :=
  list_to_map
    [ (["repo"], Dir);
      (["repo"; "utils_nlp"], Dir);
      (["repo"; "utils_nlp"; "common.py"], File "new");
      (["repo"; "examples"], Dir);
      (cwd, Dir);
      (project_dir cwd, Dir);
      (join (project_dir cwd) "train.py", File "old");
      (join (project_dir cwd) "utils_nlp", Dir);
      (join (join (project_dir cwd) "utils_nlp") "removed.py", File "old") ].

(** The same without the copy of the library. *)
Definition fs_script_only : filesystem :=
  list_to_map
    [ (["repo"], Dir);
      (["repo"; "utils_nlp"], Dir);
      (["repo"; "utils_nlp"; "common.py"], File "new");
      (["repo"; "examples"], Dir);
      (cwd, Dir);
      (project_dir cwd, Dir);
      (join (project_dir cwd) "train.py", File "old") ].

End StagingExample.

(** ** Other states of the notebook's directories *)

Module StagingEdgeExample.
Import Shutil Packager StagingExample.


(** A staging directory with a script in it, and no library tree to
    copy. *)
Definition fs_no_library : filesystem :=
  list_to_map
    [ (["repo"], Dir);
      (["repo"; "examples"], Dir);
      (cwd, Dir);
      (project_dir cwd, Dir);
      (join (project_dir cwd) "train.py", File "old") ].

(** A file where the staging directory should be. *)
Definition fs_file_in_place : filesystem :=
  list_to_map
    [ (["repo"], Dir);
      (["repo"; "utils_nlp"], Dir);
      (["repo"; "examples"], Dir);
      (cwd, Dir);
      (project_dir cwd, File "notes") ].

End StagingEdgeExample.

(** ** The example of the results file *)

Local Set Warnings "-inexact-float".

Module ReportExample.
Import Report.

Definition averages (x : float) : record :=
  [("precision", Num x); ("recall", Num x); ("f1-score", Num x);
   ("support", Num 5010.0)].

(** The entailment row of the example, and the three average rows. *)
Definition results : document :=
  [("entailment", [("precision", Num 0.87); ("recall", Num 0.76);
                   ("f1-score", Num 0.82); ("support", Num 1670.0)]);
   ("micro avg", averages 0.81);
   ("macro avg", averages 0.81);
   ("weighted avg", averages 0.81)].

(** The same figures, the keys of each record in another order. *)
Definition reordered (x : float) : record :=
  [("support", Num 5010.0); ("f1-score", Num x); ("recall", Num x);
   ("precision", Num x)].

Definition results_reordered : document :=
  [("entailment", [("support", Num 1670.0); ("f1-score", Num 0.82);
                   ("recall", Num 0.76); ("precision", Num 0.87)]);
   ("micro avg", reordered 0.81);
   ("macro avg", reordered 0.81);
   ("weighted avg", reordered 0.81)].


End ReportExample.

(** ** A workspace with and without the notebook's cluster *)

Module WorkspaceExample.
Import AzureML.

(** The cluster of the notebook's recorded output. *)
Definition gpu_entail : cluster :=
  {| configuration := {| vm_size := "STANDARD_NC6S_V2"; min_nodes := 0; max_nodes := 4 |};
     state := Succeeded;
     upcoming := [] |}.

Definition with_cluster : workspace :=
  {| compute_targets := {[ cluster_name := gpu_entail ]}; runs := []; log := [] |}.

Definition without_cluster : workspace :=
  {| compute_targets := ∅; runs := []; log := [] |}.

End WorkspaceExample.

(** ** Python's converters, on the strings of the examples *)

Module ConverterExample.

Definition py_int (s : string) : option Z :=
  if String.eqb s "3" then Some 3
  else if String.eqb s "5" then Some 5
  else if String.eqb s "7" then Some 7
  else None.

Definition py_float (s : string) : option float :=
  if String.eqb s "1.0" then Some 1.0%float
  else if String.eqb s "0.5" then Some 0.5%float
  else None.

End ConverterExample.

(** * Properties *)

(** ** Statements of the monad *)

Section Statements.
Context {S : Type}.

Lemma bind_ret {A B} (a : A) (k : A → M S B) s : (mret a ≫= k) s = k a s.
Proof. reflexivity. Qed.

Lemma bind_assoc {A B C} (m : M S A) (k : A → M S B) (h : B → M S C) s :
  ((m ≫= k) ≫= h) s = (m ≫= λ a, k a ≫= h) s.
Proof.
  unfold mbind, M_bind, bind. by destruct (m s) as [[a|e|] s'].
Qed.

Lemma for_each_nil {A} (body : A → M S unit) : for_each [] body = mret tt.
Proof. reflexivity. Qed.

Lemma for_each_cons {A} x xs (body : A → M S unit) :
  for_each (x :: xs) body = body x ≫= λ _, for_each xs body.
Proof. reflexivity. Qed.

End Statements.

(** ** The command line of [train.py] *)

Section Parser.
Import Argparse.
Variable p : parser.

Lemma option_string_action_elem o a :
  option_string_action p o = Some a → (o, a) ∈ p.
Proof.
  unfold option_string_action. intros H.
  destruct (List.find _ p) as [[o' a']|] eqn:Hfind; simplify_eq/=.
  apply find_some in Hfind as [Hin Heq]. simpl in Heq.
  apply String.eqb_eq in Heq as ->. by apply list_elem_of_In.
Qed.

Lemma get_option_tuples_elem s a o e :
  (a, o, e) ∈ get_option_tuples p s → (o, a) ∈ p.
Proof.
  unfold get_option_tuples. destruct (second_is_dash s).
  - destruct (match split_eq s with Some (l, r) => _ | None => _ end) as [pre ex].
    intros ([o' a'] & Hin & Heq)%list_elem_of_omap. simpl in Heq.
    destruct (String.prefix pre o'); by simplify_eq.
  - intros ([o' a'] & Hin & Heq)%list_elem_of_omap. simpl in Heq.
    repeat case_match; by simplify_eq.
Qed.

Lemma parse_optional_elem s a o e :
  parse_optional p s = optional (Some a) o e → (o, a) ∈ p.
Proof.
  unfold parse_optional. intros H.
  destruct s as [|c rest]; [done|].
  destruct (negb (Ascii.eqb c "-")); [done|].
  destruct (option_string_action p (String c rest)) as [a'|] eqn:Hexact.
  { simplify_eq. by apply option_string_action_elem. }
  destruct (String.eqb rest ""); [done|].
  destruct (split_eq (String c rest)) as [[o' e']|] eqn:Hsplit.
  - destruct (option_string_action p o') as [a'|] eqn:Ho'; simpl in H.
    { simplify_eq. by apply option_string_action_elem. }
    destruct (get_option_tuples p (String c rest)) as [|[[a1 o1] e1] [|??]] eqn:Ht;
      repeat case_match; simplify_eq.
    eapply get_option_tuples_elem. rewrite Ht. by left.
  - simpl in H.
    destruct (get_option_tuples p (String c rest)) as [|[[a1 o1] e1] [|??]] eqn:Ht;
      repeat case_match; simplify_eq.
    eapply get_option_tuples_elem. rewrite Ht. by left.
Qed.

(** The first pass only produces options of the parser, and each goes
    back to a string of the command line that selects it. *)
Lemma classify_items after_dash argv items :
  classify p after_dash argv = Some items →
  Forall (item_ok p) items ∧
  ∀ it d, it ∈ items → item_dest it = Some d → ∃ s, s ∈ argv ∧ selects p s = Some d.
Proof.
  revert after_dash items. induction argv as [|s argv IH]; intros after_dash items H.
  { simplify_eq/=. split; [constructor|]. by intros ?? ?%elem_of_nil. }
  simpl in H.
  assert (∀ b it items',
    classify p b argv = Some items' → item_ok p it →
    (∀ d, item_dest it = Some d → selects p s = Some d) →
    Forall (item_ok p) (it :: items') ∧
    ∀ it' d, it' ∈ it :: items' → item_dest it' = Some d →
             ∃ s', s' ∈ s :: argv ∧ selects p s' = Some d) as Hstep.
  { intros b it items' Hc Hok Hsel. destruct (IH _ _ Hc) as [IH1 IH2].
    split; [by constructor|].
    intros it' d [->|Hin]%elem_of_cons Hd.
    - exists s. split; [by left|auto].
    - destruct (IH2 _ _ Hin Hd) as (s' & ? & ?). exists s'. split; [by right|done]. }
  destruct after_dash.
  { destruct (classify p true argv) eqn:Hc; simplify_eq/=. by eapply Hstep. }
  destruct (String.eqb s "--").
  { destruct (classify p true argv) eqn:Hc; simplify_eq/=. by eapply Hstep. }
  destruct (parse_optional p s) as [|a o e|] eqn:Hp; [| |done].
  - destruct (classify p false argv) eqn:Hc; simplify_eq/=. by eapply Hstep.
  - destruct (classify p false argv) eqn:Hc; simplify_eq/=. eapply Hstep; [done|..].
    + destruct a; [|done]. simpl. by eapply parse_optional_elem.
    + intros d. unfold selects. rewrite Hp. by destruct a.
Qed.

(** *** One step of the second pass *)

Lemma short_options_first a e firsts last x :
  (∀ type, act a ≠ store type) →
  short_options p a e = Returned (firsts, last, x) →
  ∃ l, firsts = a :: l.
Proof.
  intros Ha H. destruct e as [|c e']; simpl in H.
  - destruct (act a) eqn:Hact; [by destruct (Ha type)|done..].
  - destruct (act a) eqn:Hact; [by destruct (Ha type)|..];
      repeat case_match; simplify_eq; eauto.
Qed.

Lemma take_flags_help a l ns :
  act a = help → take_flags (a :: l) ns = Raised (SystemExit 0).
Proof. intros H. simpl. unfold take_flag. by rewrite H. Qed.

(** The help option never lets [parse_args] return. *)
Lemma consume_help a o e rest ns extras ns' :
  act a = help → consume p (IO (Some a) o e :: rest) ns extras ≠ Returned ns'.
Proof.
  intros Ha H. simpl in H.
  destruct e as [e|].
  - unfold explicit_argument in H. rewrite Ha in H.
    destruct (second_is_dash o); [done|].
    destruct (short_options p a e) as [[[firsts last] x]| |] eqn:Hs; [|done..].
    apply short_options_first in Hs as [l ->]; [|by rewrite Ha].
    rewrite !(take_flags_help a) in H by done.
    change ((a :: l) ++ [last])%list with (a :: (l ++ [last]))%list in H.
    rewrite !(take_flags_help a) in H by done.
    repeat case_match; simplify_eq.
  - rewrite Ha in H. simpl in H. unfold take_flag in H. rewrite Ha in H.
    repeat case_match; simplify_eq.
Qed.

Lemma rest_of_refl rest : rest_of rest rest.
Proof. by split. Qed.

Lemma rest_of_tail rest rest' : rest' `suffix_of` rest → rest_of rest rest'.
Proof.
  intros [k ->]. split; [rewrite length_app; lia|].
  intros P. rewrite Forall_app. tauto.
Qed.

Lemma consume_store a o e type rest ns extras ns' :
  act a = store type →
  consume p (IO (Some a) o e :: rest) ns extras = Returned ns' →
  ∃ s v rest', type s = Some v ∧ rest_of rest rest' ∧
    consume p rest' (<[dest a := v]> ns) extras = Returned ns'.
Proof.
  intros Ha H. simpl in H.
  assert (match e with
          | Some e => explicit_argument p a o e
          | None => Returned ([], a, None)
          end = Returned ([], a, e)) as Hex.
  { destruct e; [|done]. unfold explicit_argument. by rewrite Ha. }
  rewrite Hex, Ha in H. simpl in H.
  destruct e as [s|].
  - unfold take_store in H. destruct (type s) as [v|] eqn:Hv; [|done].
    exists s, v, rest. eauto using rest_of_refl.
  - assert (∀ s rest', rest' `suffix_of` rest →
      match take_store a type s ns with
      | Returned ns2 => consume p rest' ns2 extras
      | Raised x => Raised x
      | Hangs => Hangs
      end = Returned ns' →
      ∃ s v rest', type s = Some v ∧ rest_of rest rest' ∧
        consume p rest' (<[dest a := v]> ns) extras = Returned ns') as Hfin.
    { intros s rest' Hsuf Hc. unfold take_store in Hc.
      destruct (type s) as [v|] eqn:Hv; [|done].
      exists s, v, rest'. eauto using rest_of_tail. }
    destruct rest as [|[s|??|] rest1]; [done| |done|].
    + destruct rest1 as [|[s1|a1 o1 e1|] rest2].
      * apply (Hfin s []); [by eexists [_]|done].
      * apply (Hfin s (IA s1 :: rest2)); [by eexists [_]|done].
      * apply (Hfin s (IO a1 o1 e1 :: rest2)); [by eexists [_]|done].
      * apply (Hfin s rest2); [by eexists [_; _]|done].
    + destruct rest1 as [|[s|??|] rest2]; [done| |done..].
      apply (Hfin s rest2); [by eexists [_; _]|done].
Qed.

Lemma consume_store_true a o e rest ns extras ns' :
  act a = store_true → second_is_dash o = true →
  consume p (IO (Some a) o e :: rest) ns extras = Returned ns' →
  ∃ rest', rest_of rest rest' ∧
    consume p rest' (<[dest a := VBool true]> ns) extras = Returned ns'.
Proof.
  intros Ha Ho H. simpl in H. destruct e as [e|].
  { unfold explicit_argument in H. by rewrite Ha, Ho in H. }
  rewrite Ha in H. simpl in H. unfold take_flag in H. rewrite Ha in H.
  destruct rest as [|[| |] rest']; eauto using rest_of_refl.
  exists rest'. split; [|done]. apply rest_of_tail. by eexists [_].
Qed.

End Parser.

Section TrainParser.
Import Argparse TrainPy.
Variable py_int : string → option Z.
Variable py_float : string → option float.
Let p := parser py_int py_float.

Lemma parser_declared o a : (o, a) ∈ p → declared py_int py_float o a.
Proof.
  intros H. apply list_elem_of_In in H. simpl in H.
  repeat (destruct H as [H|H]; [simplify_eq; by constructor|]). done.
Qed.

Lemma typed_defaults : typed (defaults p).
Proof. unfold typed. repeat split; by eexists. Qed.

Lemma typed_insert ns d v :
  typed ns →
  match v with
  | VInt _ => d = "seed" ∨ d = "epochs"
  | VBool _ => d = "no_cuda"
  | VFloat _ => d = "data_percent_used"
  end →
  typed (<[d := v]> ns).
Proof.
  intros (Hs & He & Hn & Hd & Hdom) Hv. unfold typed.
  rewrite dom_insert_L, Hdom.
  destruct v; destruct_or?; subst; simplify_map_eq;
    repeat split; eauto; set_solver.
Qed.

(** The second pass keeps the namespace typed, and only writes to the
    destinations of the options it meets. *)
Lemma consume_typed items :
  ∀ ns extras ns',
    Forall (item_ok p) items →
    consume p items ns extras = Returned ns' →
    typed ns →
    typed ns' ∧
    ∀ d, Forall (λ it, item_dest it ≠ Some d) items → ns' !! d = ns !! d.
Proof.
  induction (Nat.lt_wf_0_projected length items) as [items _ IH].
  intros ns extras ns' Hok H Hty.
  destruct items as [|it rest].
  { simpl in H. destruct extras; by simplify_eq. }
  apply Forall_cons in Hok as [Hit Hok].
  assert (∀ ns1 rest',
    rest_of rest rest' → typed ns1 →
    consume p rest' ns1 extras = Returned ns' →
    typed ns' ∧ ∀ d, Forall (λ it, item_dest it ≠ Some d) rest → ns' !! d = ns1 !! d)
    as Hnext.
  { intros ns1 rest' [Hlen Hall] Hty1 Hc.
    destruct (IH rest') with (ns := ns1) (extras := extras) (ns' := ns') as [? Hd];
      [simpl; lia|auto..]. }
  assert (consume p rest ns true = Returned ns' →
    typed ns' ∧
    ∀ d, Forall (λ it', item_dest it' ≠ Some d) (it :: rest) → ns' !! d = ns !! d)
    as Hskip.
  { intros Hc.
    destruct (IH rest) with (ns := ns) (extras := true) (ns' := ns') as [? Hd];
      [simpl; lia|done..|].
    split; [done|]. intros d [_ ?]%Forall_cons. auto. }
  destruct it as [s|[a|] o e|]; [by apply Hskip| |by apply Hskip..].
  apply parser_declared in Hit.
  assert (∀ v, match v with
               | VInt _ => dest a = "seed" ∨ dest a = "epochs"
               | VBool _ => dest a = "no_cuda"
               | VFloat _ => dest a = "data_percent_used"
               end →
     ∀ rest', rest_of rest rest' →
     consume p rest' (<[dest a := v]> ns) extras = Returned ns' →
     typed ns' ∧
     ∀ d, Forall (λ it, item_dest it ≠ Some d) (IO (Some a) o e :: rest) →
          ns' !! d = ns !! d) as Hstore.
  { intros v Hv rest' Hrest Hc.
    destruct (Hnext (<[dest a := v]> ns) rest') as [? Hd];
      [done|by apply typed_insert|done|].
    split; [done|]. intros d [Hne ?]%Forall_cons. simpl in Hne.
    rewrite Hd by done. apply lookup_insert_ne. congruence. }
  destruct Hit as [o a Ha|a Hd Ha _|a Hd Ha _|a Hd Ha _|a Hd Ha _].
  - by apply consume_help in H.
  - apply (consume_store _ _ _ _ _ _ _ _ _ Ha) in H as (s & v & rest' & Hv & ? & ?).
    destruct (py_int s); simplify_eq/=. eapply (Hstore (VInt _)); eauto.
  - apply (consume_store _ _ _ _ _ _ _ _ _ Ha) in H as (s & v & rest' & Hv & ? & ?).
    destruct (py_int s); simplify_eq/=. eapply (Hstore (VInt _)); eauto.
  - apply (consume_store_true _ _ _ _ _ _ _ _ Ha) in H as (rest' & ? & ?); [|done].
    eapply (Hstore (VBool _)); eauto.
  - apply (consume_store _ _ _ _ _ _ _ _ _ Ha) in H as (s & v & rest' & Hv & ? & ?).
    destruct (py_float s); simplify_eq/=. eapply (Hstore (VFloat _)); eauto.
Qed.

Lemma parse_args_typed argv ns :
  parse_args p argv = Returned ns →
  typed ns ∧ ∀ d, omits p argv d → ns !! d = defaults p !! d.
Proof.
  unfold parse_args. intros H.
  destruct (classify p false argv) as [items|] eqn:Hc; [|done].
  apply classify_items in Hc as [Hok Hsel].
  destruct (consume_typed items _ _ _ Hok H) as [Hty Hd].
  { apply typed_defaults. }
  split; [done|]. intros d Hd'. apply Hd, Forall_forall.
  intros it Hit Hdest. destruct (Hsel _ _ Hit Hdest) as (s & Hs & Hsd).
  by apply (Hd' s).
Qed.






End TrainParser.


(** ** The workers of a run *)

Section Workers.
Import Argparse TrainPy.

Lemma bind_name {B} n (k : unit → script B) t :
  n ∈ imported → (name n ≫= k) t = k tt t.
Proof. intros H. unfold name. by rewrite bool_decide_eq_true_2. Qed.

Lemma bind_name_unbound {B} n (k : unit → script B) t :
  n ∉ imported → (name n ≫= k) t = (Raised (NameError n), t).
Proof. intros H. unfold name. by rewrite bool_decide_eq_false_2. Qed.

Lemma bind_emit {B} e (k : unit → script B) t :
  (emit e ≫= k) t = k tt (t ++ [e])%list.
Proof. reflexivity. Qed.

Lemma bind_call {B} n e (k : unit → script B) t :
  n ∈ imported → (call n e ≫= k) t = k tt (t ++ [e])%list.
Proof.
  intros H. unfold call. by rewrite bind_assoc, bind_name, bind_emit.
Qed.

Lemma bind_attr {B} ns a v (k : value → script B) t :
  ns !! a = Some v → (attr ns a ≫= k) t = k v t.
Proof. intros H. unfold attr. by rewrite H. Qed.

Lemma bind_attr_int {B} ns a z (k : Z → script B) t :
  ns !! a = Some (VInt z) → (attr_int ns a ≫= k) t = k z t.
Proof.
  intros H. unfold attr_int. by rewrite bind_assoc, (bind_attr _ _ _ _ _ H).
Qed.

Lemma bind_attr_bool {B} ns a b (k : bool → script B) t :
  ns !! a = Some (VBool b) → (attr_bool ns a ≫= k) t = k b t.
Proof.
  intros H. unfold attr_bool. by rewrite bind_assoc, (bind_attr _ _ _ _ _ H).
Qed.

Lemma bind_training_loop {B} ns epochs l (k : unit → script B) t :
  ns !! "epochs" = Some (VInt epochs) →
  (for_each l (λ epoch,
     emit (SetEpoch epoch);;
     epochs ← attr_int ns "epochs";
     emit (Fit epoch epochs)) ≫= k) t
  = k tt (t ++ fit_events epochs l)%list.
Proof.
  intros H. revert t. induction l as [|epoch l IH]; intros t.
  - rewrite for_each_nil, bind_ret. unfold fit_events; simpl. by rewrite app_nil_r.
  - rewrite for_each_cons, !bind_assoc, bind_emit, bind_assoc.
    rewrite (bind_attr_int _ _ _ _ _ H), bind_emit, IH. f_equal.
    unfold fit_events. simpl. by rewrite <- !app_assoc.
Qed.

Ltac imported := apply (bool_decide_unpack _); vm_compute; exact I.

(** One statement of the script whose names are all bound. *)
Ltac step :=
  first [ rewrite bind_name by imported
        | rewrite bind_call by imported
        | rewrite bind_emit
        | rewrite bind_ret
        | rewrite bind_assoc ].

(** The evaluation block stops at [os.path.join]: the script never
    imports [os]. *)
Lemma evaluate_and_save_NameError rank t :
  evaluate_and_save rank t =
  (Raised (NameError "os"), (t ++ evaluation_events rank)%list).
Proof.
  unfold evaluate_and_save.
  rewrite bind_call by imported. rewrite !bind_emit.
  rewrite bind_name_unbound.
  - unfold evaluation_events. by rewrite <- !app_assoc.
  - intros H. apply (bool_decide_pack _) in H. by vm_compute in H.
Qed.

Variable py_int : string → option Z.
Variable py_float : string → option float.
Let p := parser py_int py_float.

(** What a worker does once its command line is parsed. *)
Lemma worker_parsed rank cuda argv ns :
  parse_args p argv = Returned ns →
  worker py_int py_float rank cuda argv =
  if bool_decide (rank = 0)
  then (Raised (NameError "os"),
        (training_events rank cuda ns ++ evaluation_events rank)%list)
  else (Returned tt, training_events rank cuda ns).
Proof.
  intros Hparse.
  destruct (parse_args_typed _ _ _ _ Hparse)
    as [([seed Hseed] & [epochs Hepochs] & [no_cuda Hno_cuda] & [dpu Hdpu] & _) _].
  unfold worker, train_py, training_events, cuda_of, epochs_of.
  rewrite Hseed, Hepochs, Hno_cuda, Hdpu. simpl from_option.
  rewrite bind_name by imported. rewrite bind_call by imported.
  rewrite !bind_name by imported.
  unfold mbind at 1, M_bind at 1, bind at 1. fold p. rewrite Hparse.
  rewrite (bind_attr_bool _ _ _ _ _ Hno_cuda).
  assert (∀ {B} (k : unit → script B) t,
    ((if no_cuda then mret () else name "torch") ≫= k) t = k tt t) as ->.
  { intros B k t. destruct no_cuda; [done|]. by rewrite bind_name by imported. }
  assert (∀ {B} (k : unit → script B) t,
    ((if negb no_cuda && cuda
      then name "torch";;
           call "hvd" CudaSetDevice;;
           name "torch";;
           seed ← attr ns "seed";
           emit (CudaManualSeed seed)
      else mret ()) ≫= k) t =
    k tt (t ++ if negb no_cuda && cuda
               then [CudaSetDevice; CudaManualSeed (VInt seed)] else [])%list) as ->.
  { intros B k t. destruct (negb no_cuda && cuda).
    - repeat step. rewrite (bind_attr _ _ _ _ _ Hseed). repeat step.
      by rewrite <- app_assoc.
    - by rewrite bind_ret, app_nil_r. }
  rewrite bind_name by imported.
  rewrite (bind_attr _ _ _ _ _ Hdpu), bind_emit.
  rewrite !bind_name by imported.
  rewrite !bind_emit. rewrite (bind_attr_int _ _ _ _ _ Hepochs).
  rewrite bind_emit. rewrite bind_name by imported.
  rewrite (bind_attr_int _ _ _ _ _ Hepochs).
  rewrite (bind_training_loop _ _ _ _ _ Hepochs).
  rewrite bind_name by imported.
  case_bool_decide.
  - rewrite evaluate_and_save_NameError. f_equal. simpl.
    rewrite <- !app_assoc. simpl. reflexivity.
  - unfold mret, M_ret, ret. f_equal. rewrite <- !app_assoc. simpl. reflexivity.
Qed.

(** A command line the parser refuses ends the worker at once. *)
Lemma worker_not_parsed rank cuda argv :
  (∀ ns, parse_args p argv ≠ Returned ns) →
  worker py_int py_float rank cuda argv =
  (match parse_args p argv with
   | Returned _ => Returned tt
   | Raised e => Raised e
   | Hangs => Hangs
   end, [HvdInit]).
Proof.
  intros Hparse. unfold worker, train_py.
  rewrite bind_name by imported. rewrite bind_call by imported.
  rewrite !bind_name by imported.
  unfold mbind at 1, M_bind at 1, bind at 1. fold p.
  destruct (parse_args p argv) as [ns| |]; [by destruct (Hparse ns)|done..].
Qed.







(** The workers of the other ranks return after training. *)
Lemma other_ranks_return rank cuda argv ns :
  rank ≠ 0 → parse_args p argv = Returned ns →
  worker py_int py_float rank cuda argv = (Returned tt, training_events rank cuda ns).
Proof.
  intros Hrank Hparse. rewrite (worker_parsed _ _ _ _ Hparse).
  by rewrite bool_decide_eq_false_2.
Qed.


End Workers.


(** ** The staging directory *)

Section Files.
Import Shutil Packager.
Local Close Scope string_scope.
Implicit Types (p k src dst : path) (fs : filesystem).

Lemma relative_to_app p r : relative_to p (p ++ r) = Some r.
Proof.
  unfold relative_to. rewrite bool_decide_eq_true_2 by (by eexists).
  by rewrite drop_app_length.
Qed.

Lemma relative_to_Some p k r : relative_to p k = Some r ↔ k = p ++ r.
Proof.
  split; [|intros ->; apply relative_to_app].
  unfold relative_to. case_bool_decide as H; [|done].
  destruct H as [r' ->]. rewrite drop_app_length. congruence.
Qed.

Lemma relative_to_None p k : relative_to p k = None ↔ ¬ p `prefix_of` k.
Proof. unfold relative_to. case_bool_decide; naive_solver. Qed.

(** The copy holds, below [dst], what the source holds below [src]. *)
Lemma lookup_copied src dst fs k :
  copied src dst fs !! k = relative_to dst k ≫= λ r, fs !! (src ++ r).
Proof.
  unfold copied. revert k.
  apply (map_fold_weak_ind (λ res m,
    ∀ k, res !! k = relative_to dst k ≫= λ r, m !! (src ++ r))).
  { intros k. rewrite lookup_empty. by destruct (relative_to dst k). }
  intros i x m res Hi IH k.
  destruct (relative_to src i) as [r0|] eqn:Hrel.
  - apply relative_to_Some in Hrel as ->.
    destruct (decide (k = dst ++ r0)) as [->|Hne].
    + by rewrite lookup_insert_eq, relative_to_app; simpl; rewrite lookup_insert_eq.
    + rewrite lookup_insert_ne, IH by done.
      destruct (relative_to dst k) as [r|] eqn:Hk; [simpl|done].
      apply relative_to_Some in Hk as ->.
      rewrite lookup_insert_ne; [done|]. intros ?%(inj (app src)). congruence.
  - rewrite IH. destruct (relative_to dst k) as [r|] eqn:Hk; [simpl|done].
    rewrite lookup_insert_ne; [done|]. intros ->. by rewrite relative_to_app in Hrel.
Qed.

Lemma lookup_without p fs k :
  without p fs !! k = if decide (p `prefix_of` k) then None else fs !! k.
Proof.
  unfold without. rewrite map_lookup_filter. destruct (fs !! k) as [x|]; simpl.
  - case_decide; [by rewrite option_guard_False by naive_solver|].
    by rewrite option_guard_True.
  - by case_decide.
Qed.

Lemma without_id p fs :
  (∀ k, p `prefix_of` k → fs !! k = None) → without p fs = fs.
Proof.
  intros H. apply map_eq. intros k. rewrite lookup_without.
  case_decide; [by rewrite H|done].
Qed.

Lemma rmtree_Dir p fs :
  stat fs p = Some Dir → rmtree p fs = (Returned tt, without p fs).
Proof. unfold rmtree. by intros ->. Qed.

Lemma stat_lookup fs p : p ≠ [] → stat fs p = fs !! p.
Proof. by destruct p. Qed.

Lemma stat_snoc fs p x : stat fs (p ++ [x]) = fs !! (p ++ [x]).
Proof. by destruct p. Qed.

Lemma dirname_snoc p x : dirname (p ++ [x]) = p.
Proof. apply removelast_last. Qed.

Lemma mkdir_fresh fs p x :
  fs !! (p ++ [x]) = None → stat fs p = Some Dir →
  mkdir (p ++ [x]) fs = (Returned tt, <[p ++ [x] := Dir]> fs).
Proof.
  intros Hnew Hp. unfold mkdir, exists_.
  rewrite stat_snoc, Hnew, bool_decide_eq_false_2 by (by intros []).
  by rewrite dirname_snoc, Hp.
Qed.

Lemma mkdir_exists fs p x :
  is_Some (fs !! (p ++ [x])) → mkdir (p ++ [x]) fs = (Raised FileExistsError, fs).
Proof.
  intros H. unfold mkdir, exists_. by rewrite stat_snoc, bool_decide_eq_true_2.
Qed.

Lemma makedirs_rev_cons tail rhead fs :
  makedirs_rev (tail :: rhead) fs =
  match (if bool_decide (rhead ≠ []) && negb (exists_ fs (reverse rhead))
         then try_except (makedirs_rev rhead) is_FileExistsError (mret tt) fs
         else (Returned tt, fs)) with
  | (Returned _, fs') => mkdir (reverse (tail :: rhead)) fs'
  | (Raised e, fs') => (Raised e, fs')
  | (Hangs, fs') => (Hangs, fs')
  end.
Proof. reflexivity. Qed.

(** [makedirs] of a directory two levels below an existing one. *)
Lemma makedirs_two fs parent x y :
  stat fs parent = Some Dir →
  fs !! (parent ++ [x]) = None →
  fs !! ((parent ++ [x]) ++ [y]) = None →
  makedirs ((parent ++ [x]) ++ [y]) fs
  = (Returned tt, <[(parent ++ [x]) ++ [y] := Dir]> (<[parent ++ [x] := Dir]> fs)).
Proof.
  intros Hparent Hx Hy. unfold makedirs. rewrite !reverse_snoc.
  assert (makedirs_rev (x :: reverse parent) fs = mkdir (parent ++ [x]) fs) as Hinner.
  { rewrite makedirs_rev_cons, reverse_involutive. unfold exists_.
    rewrite (bool_decide_eq_true_2 (is_Some (stat fs parent))) by (rewrite Hparent; eauto).
    rewrite andb_false_r. by rewrite reverse_cons, reverse_involutive. }
  rewrite makedirs_rev_cons.
  rewrite !reverse_cons, reverse_involutive.
  unfold exists_ at 1. rewrite stat_snoc, Hx.
  rewrite bool_decide_eq_true_2 by done.
  rewrite (bool_decide_eq_false_2 (is_Some None)) by (by intros []).
  cbn [andb negb]. unfold try_except. rewrite Hinner.
  rewrite mkdir_fresh by done.
  rewrite mkdir_fresh; [done| |by rewrite stat_snoc, lookup_insert_eq].
  rewrite lookup_insert_ne; [done|].
  intros ?%(f_equal length). rewrite !length_app in *. simpl in *. lia.
Qed.

(** [makedirs] of a directory that exists, below one that exists. *)
Lemma makedirs_exists fs p x y :
  is_Some (fs !! (p ++ [x])) → is_Some (fs !! ((p ++ [x]) ++ [y])) →
  makedirs ((p ++ [x]) ++ [y]) fs = (Raised FileExistsError, fs).
Proof.
  intros Hx Hy. unfold makedirs. rewrite !reverse_snoc, makedirs_rev_cons.
  rewrite !reverse_cons, reverse_involutive. unfold exists_ at 1.
  rewrite stat_snoc, (bool_decide_eq_true_2 (is_Some _)) by done.
  rewrite andb_false_r. by apply mkdir_exists.
Qed.

Section Stage.
Variables (utils_nlp parent : path) (name : string).
Let project_dir : path := parent ++ [name].
Let dst : path := join project_dir "utils_nlp".
Hypothesis apart_1 : ¬ project_dir `prefix_of` utils_nlp.
Hypothesis apart_2 : ¬ utils_nlp `prefix_of` project_dir.

Lemma utils_nlp_not_root : utils_nlp ≠ [].
Proof. intros H. apply apart_2. rewrite H. apply prefix_nil. Qed.

Lemma outside_project_dir r : ¬ project_dir `prefix_of` utils_nlp ++ r.
Proof.
  intros H.
  destruct (prefix_weak_total project_dir utils_nlp (utils_nlp ++ r));
    [done|by eexists|done..].
Qed.

Lemma lookup_staged_copy fs r :
  stat fs utils_nlp = Some Dir →
  staged utils_nlp project_dir fs !! (dst ++ r) = fs !! (utils_nlp ++ r).
Proof.
  intros Hsrc. unfold staged. fold dst.
  assert (copied utils_nlp dst (without project_dir fs) !! (dst ++ r)
          = fs !! (utils_nlp ++ r)) as Hcopy.
  { rewrite lookup_copied, relative_to_app. simpl.
    by rewrite lookup_without, decide_False by apply outside_project_dir. }
  destruct (fs !! (utils_nlp ++ r)) as [v|] eqn:Hv.
  { rewrite lookup_union_l'; [done|]. rewrite Hcopy. eauto. }
  rewrite lookup_union_r by done.
  destruct r as [|x r].
  { rewrite app_nil_r in Hv.
    rewrite stat_lookup in Hsrc by apply utils_nlp_not_root.
    by rewrite Hsrc in Hv. }
  rewrite !lookup_insert_ne, lookup_without, decide_True; [done|..].
  - unfold dst, join. rewrite <- app_assoc. by eexists.
  - unfold dst, join. rewrite <- app_assoc.
    intros ?%(f_equal length). rewrite !length_app in *. simpl in *. lia.
  - intros ?%(f_equal length). rewrite !length_app in *. simpl in *. lia.
Qed.

Lemma lookup_staged_project_dir fs :
  staged utils_nlp project_dir fs !! project_dir = Some Dir.
Proof.
  unfold staged. fold dst. rewrite lookup_union_r.
  - rewrite lookup_insert_ne, lookup_insert_eq; [done|].
    unfold dst, join. intros ?%(f_equal length). rewrite !length_app in *. simpl in *. lia.
  - rewrite lookup_copied. destruct (relative_to dst project_dir) eqn:H; [|done].
    apply relative_to_Some, (f_equal length) in H.
    unfold dst, join in H. rewrite !length_app in H. simpl in H. lia.
Qed.

Lemma lookup_staged_stale fs k :
  project_dir `prefix_of` k → k ≠ project_dir → ¬ dst `prefix_of` k →
  staged utils_nlp project_dir fs !! k = None.
Proof.
  intros Hk Hne Hdst. unfold staged. fold dst. rewrite lookup_union_r.
  - rewrite !lookup_insert_ne, lookup_without, decide_True; [done..| |].
    + congruence.
    + intros <-. by destruct Hdst.
  - rewrite lookup_copied. by apply relative_to_None in Hdst as ->.
Qed.

Lemma lookup_staged_outside fs k :
  ¬ project_dir `prefix_of` k → staged utils_nlp project_dir fs !! k = fs !! k.
Proof.
  intros Hk. unfold staged. fold dst.
  assert (¬ dst `prefix_of` k) as Hdst.
  { intros H. apply Hk. etrans; [|done]. by eexists. }
  rewrite lookup_union_r.
  - rewrite !lookup_insert_ne, lookup_without, decide_False; [done..| |].
    + intros <-. by destruct Hk.
    + intros <-. by destruct Hdst.
  - rewrite lookup_copied. by apply relative_to_None in Hdst as ->.
Qed.

Lemma without_staged fs :
  without project_dir (staged utils_nlp project_dir fs) = without project_dir fs.
Proof.
  apply map_eq. intros k. rewrite !lookup_without.
  case_decide; [done|by apply lookup_staged_outside].
Qed.

Lemma staged_staged fs :
  staged utils_nlp project_dir (staged utils_nlp project_dir fs)
  = staged utils_nlp project_dir fs.
Proof. unfold staged at 1 3. by rewrite without_staged. Qed.

Lemma stat_staged_outside fs k :
  ¬ project_dir `prefix_of` k → stat (staged utils_nlp project_dir fs) k = stat fs k.
Proof.
  intros Hk. destruct (decide (k = [])) as [->|?]; [done|].
  rewrite !stat_lookup by done. by apply lookup_staged_outside.
Qed.

Lemma parent_outside : ¬ project_dir `prefix_of` parent.
Proof.
  intros ?%prefix_length. unfold project_dir in *.
  rewrite length_app in *. simpl in *. lia.
Qed.

(** With [DEBUG] set the cell returns the staged file system. *)
Lemma stage_DEBUG fs :
  stat fs parent = Some Dir →
  stat fs utils_nlp = Some Dir →
  (fs !! project_dir = Some Dir ∨ ∀ k, project_dir `prefix_of` k → fs !! k = None) →
  stage true utils_nlp project_dir fs = (Returned dst, staged utils_nlp project_dir fs).
Proof.
  intros Hparent Hsrc Hpd. unfold stage.
  assert ((if true && exists_ fs project_dir
           then rmtree project_dir fs else (Returned tt, fs))
          = (Returned tt, without project_dir fs)) as Hclean.
  { assert (stat fs project_dir = fs !! project_dir) as Hstat by apply stat_snoc.
    simpl. unfold exists_. rewrite Hstat.
    destruct Hpd as [Hpd|Hpd].
    - rewrite bool_decide_eq_true_2 by (rewrite Hpd; eauto).
      apply rmtree_Dir. by rewrite Hstat.
    - rewrite bool_decide_eq_false_2; [by rewrite without_id|].
      rewrite Hpd by done. apply is_Some_None. }
  unfold mbind, M_bind, bind. rewrite Hclean.
  unfold copytree.
  assert (stat (without project_dir fs) utils_nlp = Some Dir) as ->.
  { rewrite stat_lookup in * by apply utils_nlp_not_root.
    by rewrite lookup_without, decide_False. }
  unfold staged. fold dst. unfold dst, join, project_dir.
  rewrite makedirs_two; [done|..].
  - destruct (decide (parent = [])) as [E|E]; [by rewrite E|].
    rewrite stat_lookup in * by done.
    rewrite lookup_without, decide_False; [done|apply parent_outside].
  - rewrite lookup_without, decide_True; done.
  - rewrite lookup_without, decide_True; [done|by eexists].
Qed.

(** Without [DEBUG] the cell stops at [copytree] when the copy is
    already there, and leaves everything as it was. *)
Lemma stage_no_DEBUG_exists fs :
  stat fs utils_nlp = Some Dir →
  is_Some (fs !! project_dir) → is_Some (fs !! dst) →
  stage false utils_nlp project_dir fs = (Raised FileExistsError, fs).
Proof.
  intros Hsrc Hpd Hdst. unfold stage, mbind, M_bind, bind. simpl.
  unfold copytree. rewrite Hsrc. fold dst. unfold dst, join, project_dir.
  by rewrite makedirs_exists.
Qed.

End Stage.

(** C1, as the code has it.  With [DEBUG] set (the notebook's value),
    for a library tree and a staging directory that do not contain one
    another, the staging directory's parent existing and the staging
    directory being a directory or absent: the cell returns the copy's
    path; the copy holds exactly what the library tree holds; the
    staging directory holds nothing else (no stale entry); everything
    outside it is untouched; and running the cell again leaves the same
    file system.  Without [DEBUG] nothing is deleted: run on the staged
    directory the cell raises [FileExistsError] and changes nothing. *)
Theorem stage_DEBUG_clean_copy utils_nlp parent name fs :
  let project_dir := parent ++ [name] in
  let dst := join project_dir "utils_nlp" in
  ¬ project_dir `prefix_of` utils_nlp →
  ¬ utils_nlp `prefix_of` project_dir →
  stat fs parent = Some Dir →
  stat fs utils_nlp = Some Dir →
  (fs !! project_dir = Some Dir ∨ ∀ k, project_dir `prefix_of` k → fs !! k = None) →
  ∃ fs1,
    stage true utils_nlp project_dir fs = (Returned dst, fs1) ∧
    (∀ r, fs1 !! (dst ++ r) = fs !! (utils_nlp ++ r)) ∧
    fs1 !! project_dir = Some Dir ∧
    (∀ k, project_dir `prefix_of` k → k ≠ project_dir → ¬ dst `prefix_of` k →
          fs1 !! k = None) ∧
    (∀ k, ¬ project_dir `prefix_of` k → fs1 !! k = fs !! k) ∧
    stage true utils_nlp project_dir fs1 = (Returned dst, fs1) ∧
    stage false utils_nlp project_dir fs1 = (Raised FileExistsError, fs1).
Proof.
  intros project_dir dst H1 H2 Hparent Hsrc Hpd. subst project_dir dst.
  exists (staged utils_nlp (parent ++ [name]) fs).
  split; [by apply stage_DEBUG|].
  split; [intros r; by apply lookup_staged_copy|].
  split; [by apply lookup_staged_project_dir|].
  split; [intros k; by apply lookup_staged_stale|].
  split; [intros k; by apply lookup_staged_outside|].
  assert (stat (staged utils_nlp (parent ++ [name]) fs) utils_nlp = Some Dir) as Hsrc'.
  { by rewrite stat_staged_outside. }
  split.
  - rewrite <- (staged_staged utils_nlp parent name fs) at 2.
    apply stage_DEBUG; [done..| |done|].
    + rewrite stat_staged_outside; [done|apply parent_outside].
    + left. by apply lookup_staged_project_dir.
  - apply stage_no_DEBUG_exists; [done| |].
    + rewrite lookup_staged_project_dir; eauto.
    + rewrite <- (app_nil_r (join _ _)).
      rewrite lookup_staged_copy by done. rewrite app_nil_r.
      rewrite stat_lookup in Hsrc by (by apply utils_nlp_not_root with parent name).
      rewrite Hsrc. eauto.
Qed.

End Files.

(** *** The notebook's directories *)

Section StagingExamples.
Import Shutil Packager StagingExample.

Ltac decided := apply (bool_decide_unpack _); vm_compute; exact I.

(** C1 as stated fails: without [DEBUG] the staging directory is not
    deleted.  On a staging directory that holds a copy already, the cell
    raises [FileExistsError] and the stale file of the old copy stays;
    on one that holds the old script only, the copy is made beside it
    and the old script stays. *)
Lemma stage_without_DEBUG_keeps_stale :
  stage false (utils_nlp cwd) (project_dir cwd) fs0 = (Raised FileExistsError, fs0) ∧
  fs0 !! join (join (project_dir cwd) "utils_nlp") "removed.py" = Some (File "old") ∧
  fs0 !! join (utils_nlp cwd) "removed.py" = None ∧
  (stage false (utils_nlp cwd) (project_dir cwd) fs_script_only).1
    = Returned (join (project_dir cwd) "utils_nlp") ∧
  (stage false (utils_nlp cwd) (project_dir cwd) fs_script_only).2
    !! join (project_dir cwd) "train.py" = Some (File "old").
Proof. repeat split; by vm_compute. Qed.

(** With [DEBUG] set, on the same staging directory: the stale file and
    the old script are gone, the library's file is there, and a second
    run changes nothing. *)
Lemma stage_DEBUG_clean_copy_witness :
  ∃ fs1,
    stage true (utils_nlp cwd) (project_dir cwd) fs0
      = (Returned (join (project_dir cwd) "utils_nlp"), fs1) ∧
    fs1 !! join (join (project_dir cwd) "utils_nlp") "common.py" = Some (File "new") ∧
    fs1 !! join (join (project_dir cwd) "utils_nlp") "removed.py" = None ∧
    fs1 !! join (project_dir cwd) "train.py" = None ∧
    stage true (utils_nlp cwd) (project_dir cwd) fs1
      = (Returned (join (project_dir cwd) "utils_nlp"), fs1).
Proof.
  destruct (stage_DEBUG_clean_copy (utils_nlp cwd) cwd "entail_utils" fs0)
    as (fs1 & Hrun & Hcopy & _ & Hstale & _ & Hagain & _).
  - decided.
  - decided.
  - reflexivity.
  - reflexivity.
  - left. reflexivity.
  - exists fs1. split; [exact Hrun|].
    split; [exact (Hcopy ["common.py"])|].
    split; [exact (Hcopy ["removed.py"])|].
    split; [|exact Hagain].
    apply Hstale; [decided|decided|decided].
Defined.

End StagingExamples.

(** ** The printed report *)

Section Frames.
Import Report.
Implicit Types (l seen : list string) (parsed : document) (rec : record).

Lemma position_Some l k i : position l k = Some i → l !! i = Some k.
Proof.
  revert i. induction l as [|x l IH]; intros i H; [done|]. simpl in H.
  destruct (String.eqb x k) eqn:E.
  - apply String.eqb_eq in E. by simplify_eq.
  - destruct (position l k) as [j|]; simplify_eq/=. by apply IH.
Qed.

Lemma position_elem l k : k ∈ l → is_Some (position l k).
Proof.
  induction 1 as [x l|x y l _ IH]; simpl.
  - rewrite String.eqb_refl. eauto.
  - destruct (String.eqb y x); [eauto|]. destruct IH as [j ->]. eauto.
Qed.

Lemma position_fst {A} (d : list (string * A)) k v :
  NoDup (fst <$> d) → (k, v) ∈ d →
  ∃ i, position (fst <$> d) k = Some i ∧ d !! i = Some (k, v).
Proof.
  induction d as [|[k' v'] d IH]; intros Hnd Hin; [by apply elem_of_nil in Hin|].
  rewrite fmap_cons in Hnd. apply NoDup_cons in Hnd as [Hk' Hnd].
  rewrite fmap_cons. cbn [position fst].
  apply elem_of_cons in Hin as [?|Hin].
  - simplify_eq. rewrite String.eqb_refl. by exists 0%nat.
  - destruct (String.eqb k' k) eqn:E.
    + apply String.eqb_eq in E as ->. destruct Hk'.
      apply list_elem_of_fmap. by exists (k, v).
    + destruct (IH Hnd Hin) as (i & -> & ?). by exists (S i).
Qed.

Lemma dict_get_elem {A} (d : list (string * A)) k v :
  NoDup (fst <$> d) → (k, v) ∈ d → dict_get d k = Some v.
Proof.
  unfold dict_get.
  induction d as [|[k' v'] d IH]; intros Hnd Hin; [by apply elem_of_nil in Hin|].
  apply NoDup_cons in Hnd as [Hk' Hnd]. simpl.
  apply elem_of_cons in Hin as [?|Hin].
  - simplify_eq. by rewrite String.eqb_refl.
  - destruct (String.eqb k' k) eqn:E; [|by apply IH].
    apply String.eqb_eq in E as ->. destruct Hk'.
    apply list_elem_of_fmap. by exists (k, v).
Qed.


(** *** The cells *)

Lemma index_report sort parsed :
  index (transpose (from_dict sort parsed)) = fst <$> parsed.
Proof. reflexivity. Qed.

Lemma columns_report sort parsed :
  columns (transpose (from_dict sort parsed)) = union_indexes sort parsed.
Proof. reflexivity. Qed.

(** The cell of a class and a key is what the class's record has under
    the key, [NaN] when it has nothing. *)
Lemma loc_report sort parsed label rec key :
  NoDup (fst <$> parsed) →
  (label, rec) ∈ parsed →
  key ∈ union_indexes sort parsed →
  loc (transpose (from_dict sort parsed)) label key = Some (dict_get rec key).
Proof.
  intros Hnd Hin Hkey.
  destruct (position_fst _ _ _ Hnd Hin) as (i & Hi & Hrec).
  destruct (position_elem _ _ Hkey) as [j Hj].
  unfold loc. rewrite index_report, columns_report, Hi, Hj. simpl.
  rewrite list_lookup_fmap, length_fmap.
  rewrite lookup_seq_lt by (by eapply lookup_lt_Some). simpl.
  unfold column_at. rewrite !list_lookup_fmap.
  apply position_Some in Hj. rewrite Hj. simpl.
  by rewrite list_lookup_fmap, Hrec.
Qed.

(** *** The column labels *)

Lemma fast_unique_seen seen l :
  (∀ x, x ∈ l → x ∈ seen) → fast_unique seen l = [].
Proof.
  induction l as [|x l IH]; intros H; [done|]. simpl.
  rewrite bool_decide_eq_true_2 by (apply H; by left).
  apply IH. intros y Hy. apply H. by right.
Qed.

Lemma fast_unique_first seen l0 rest :
  NoDup l0 →
  (∀ x, x ∈ l0 → x ∉ seen) →
  (∀ x, x ∈ rest → x ∈ l0 ∨ x ∈ seen) →
  fast_unique seen (l0 ++ rest) = l0.
Proof.
  revert seen. induction l0 as [|x l0 IH]; intros seen Hnd Hnew Hrest.
  { apply fast_unique_seen. intros x Hx.
    destruct (Hrest x Hx) as [?%elem_of_nil|?]; done. }
  apply NoDup_cons in Hnd as [Hx Hnd]. simpl.
  rewrite bool_decide_eq_false_2 by (apply Hnew; by left).
  f_equal. apply IH; [done|..].
  - intros y Hy [->|?]%elem_of_cons; [done|]. apply (Hnew y); [by right|done].
  - intros y Hy. destruct (Hrest y Hy) as [[->|?]%elem_of_cons|?].
    + right. by left.
    + by left.
    + right. by right.
Qed.

Lemma fast_unique_elem seen l x :
  x ∈ fast_unique seen l ↔ x ∈ l ∧ x ∉ seen.
Proof.
  revert seen. induction l as [|y l IH]; intros seen; simpl.
  { split; [by intros ?%elem_of_nil|by intros [?%elem_of_nil _]]. }
  case_bool_decide as Hy.
  - rewrite IH, elem_of_cons. split.
    + intros [? ?]. auto.
    + intros [[->|?] ?]; [done|auto].
  - rewrite elem_of_cons, IH, not_elem_of_cons, elem_of_cons. split.
    + intros [->|[? [? ?]]]; auto.
    + intros [[->|?] ?]; [by left|].
      destruct (decide (x = y)) as [->|?]; [by left|]. right. auto.
Qed.

Lemma NoDup_metric_keys : NoDup metric_keys.
Proof. apply (bool_decide_unpack _). by vm_compute. Qed.

(** In a well-formed document the keys are those of the first record,
    in its order. *)
Lemma union_keys_well_formed parsed :
  well_formed parsed →
  ∃ label0 rec0 rest, parsed = (label0, rec0) :: rest ∧
    union_keys parsed = fst <$> rec0 ∧ fst <$> rec0 ≡ₚ metric_keys.
Proof.
  intros (Hnd & Havg & Hrec).
  destruct parsed as [|[label0 rec0] rest].
  { specialize (Havg "micro avg"). rewrite !elem_of_cons in Havg.
    by apply elem_of_nil in Havg; [|left]. }
  exists label0, rec0, rest. split; [done|].
  apply Forall_cons in Hrec as [[Hkeys0 _] Hrec]. simpl in Hkeys0.
  split; [|done]. unfold union_keys. rewrite bind_cons. simpl.
  apply fast_unique_first.
  - rewrite Hkeys0. apply NoDup_metric_keys.
  - intros x _. apply not_elem_of_nil.
  - intros x (kv & Hx & Hkv)%list_elem_of_bind. left.
    rewrite Forall_forall in Hrec. destruct (Hrec kv Hkv) as [Hkeys _].
    rewrite Hkeys0. by rewrite Hkeys in Hx.
Qed.

Lemma merge_sort_metric_keys l :
  l ≡ₚ metric_keys → merge_sort String.le l = sorted_metric_keys.
Proof.
  intros Hl. apply (Sorted_unique String.le).
  - apply Sorted_merge_sort, _.
  - apply (bool_decide_unpack _). by vm_compute.
  - rewrite merge_sort_Permutation, Hl.
    apply NoDup_Permutation; [apply NoDup_metric_keys|..].
    + apply (bool_decide_unpack _). by vm_compute.
    + intros x. unfold metric_keys, sorted_metric_keys.
      rewrite !elem_of_cons, !elem_of_nil. tauto.
Qed.

(** C2, as the code has it.  For a well-formed results document the
    printed frame has one row per class label, in the document's order;
    its columns are the four metric keys, in lexicographic order
    (f1-score, precision, recall, support) when pandas sorts the inner
    keys, as in the notebook's recorded output, and in the order of the
    first record otherwise; and the cell of a class and a key holds the
    class's value for that key. *)
Theorem report_table sort parsed :
  well_formed parsed →
  ∃ df,
    report sort parsed = Returned df ∧
    index df = fst <$> parsed ∧
    columns df ≡ₚ metric_keys ∧
    columns df = (if sort then sorted_metric_keys
                  else from_option (λ kv : string * record, fst <$> snd kv) []
                         (head parsed)) ∧
    ∀ label rec key x,
      (label, rec) ∈ parsed → (key, x) ∈ rec →
      loc df label key = Some (Some x).
Proof.
  intros Hwf. pose proof Hwf as (Hnd & _ & Hrec).
  destruct (union_keys_well_formed _ Hwf) as (label0 & rec0 & rest & -> & Hkeys & Hperm).
  eexists. split; [reflexivity|]. split; [done|].
  rewrite columns_report. unfold union_indexes. rewrite Hkeys.
  split; [|split].
  - destruct sort; [|done]. by rewrite merge_sort_Permutation.
  - destruct sort; [|done]. by apply merge_sort_metric_keys.
  - intros label rec key x Hin Hkey.
    rewrite Forall_forall in Hrec. destruct (Hrec _ Hin) as [Hkeys' _].
    simpl in Hkeys'.
    rewrite (loc_report sort _ label rec key Hnd Hin).
    + f_equal. apply dict_get_elem; [|done].
      rewrite Hkeys'. apply NoDup_metric_keys.
    + unfold union_indexes. rewrite Hkeys.
      assert (key ∈ fst <$> rec0) as Hk.
      { rewrite Hperm, <- Hkeys'. apply list_elem_of_fmap. by exists (key, x). }
      destruct sort; [|done]. by rewrite merge_sort_Permutation.
Qed.


End Frames.

(** *** The example of the results file *)

Section ReportExamples.
Import Report ReportExample.

Lemma results_well_formed : well_formed results.
Proof.
  split; [|split].
  - apply (bool_decide_unpack _). by vm_compute.
  - intros avg Havg. apply list_elem_of_In in Havg. simpl in Havg.
    apply list_elem_of_In. simpl. tauto.
  - repeat constructor.
Qed.

Lemma results_reordered_well_formed : well_formed results_reordered.
Proof.
  split; [|split].
  - apply (bool_decide_unpack _). by vm_compute.
  - intros avg Havg. apply list_elem_of_In in Havg. simpl in Havg.
    apply list_elem_of_In. simpl. tauto.
  - assert ((["support"; "f1-score"; "recall"; "precision"] : list string)
            ≡ₚ metric_keys) as Hperm.
    { apply NoDup_Permutation.
      - apply (bool_decide_unpack _). by vm_compute.
      - apply NoDup_metric_keys.
      - intros x. unfold metric_keys. rewrite !elem_of_cons, !elem_of_nil. tauto. }
    repeat constructor; exact Hperm.
Qed.

(** C2 as stated fails: the columns are not in the order precision,
    recall, f1-score, support.  With the sorting of the notebook's
    recorded output the example's frame has them in lexicographic order;
    without sorting, a well-formed document whose records list the keys
    in another order gets that order. *)
Lemma report_columns_not_in_stated_order :
  (∃ df, report true results = Returned df ∧
         columns df = ["f1-score"; "precision"; "recall"; "support"] ∧
         columns df ≠ ["precision"; "recall"; "f1-score"; "support"]) ∧
  (∃ df, report false results_reordered = Returned df ∧
         columns df = ["support"; "f1-score"; "recall"; "precision"] ∧
         columns df ≠ ["precision"; "recall"; "f1-score"; "support"]).
Proof. split; eexists; (split; [reflexivity|]); by split. Qed.

(** The entailment row of the example, cell by cell. *)
Lemma report_table_witness :
  ∃ df, report true results = Returned df ∧
        index df = ["entailment"; "micro avg"; "macro avg"; "weighted avg"] ∧
        columns df = ["f1-score"; "precision"; "recall"; "support"] ∧
        loc df "entailment" "precision" = Some (Some (Num 0.87)) ∧
        loc df "entailment" "recall" = Some (Some (Num 0.76)) ∧
        loc df "entailment" "f1-score" = Some (Some (Num 0.82)) ∧
        loc df "entailment" "support" = Some (Some (Num 1670.0)).
Proof.
  destruct (report_table true results results_well_formed)
    as (df & Hdf & Hindex & _ & Hcolumns & Hcell).
  assert (∀ key x,
    (key, x) ∈ [("precision", Num 0.87); ("recall", Num 0.76);
                ("f1-score", Num 0.82); ("support", Num 1670.0)] →
    loc df "entailment" key = Some (Some x)) as Hrow.
  { intros key x. apply Hcell. by left. }
  exists df. split; [exact Hdf|]. split; [exact Hindex|]. split; [exact Hcolumns|].
  repeat split; apply Hrow; apply list_elem_of_In; simpl; tauto.
Defined.



End ReportExamples.

(** ** The compute cluster and the submitted run *)

Section Workspace.
Import AzureML.
Local Close Scope string_scope.
Implicit Types (ws : workspace) (service : list provisioning_state).



Lemma refreshes n name ws :
  for_each (replicate n name) (λ name, send (RefreshState name)) ws
  = (Returned tt, with_log ws (log ws ++ replicate n (RefreshState name))).
Proof.
  revert ws. induction n as [|n IH]; intros ws; simpl.
  - unfold ret, with_log. rewrite app_nil_r. by destruct ws.
  - unfold bind, send at 1, modify. rewrite IH. unfold with_log. simpl.
    by rewrite <- app_assoc.
Qed.

(** The cell on a name that resolves. *)
Lemma provision_hit service name NODE_COUNT ws c :
  compute_targets ws !! name = Some c →
  provision service name NODE_COUNT ws
  = (Returned name, with_log ws (log ws ++ [GetComputeTarget name; GetStatus name])).
Proof.
  intros H. unfold provision, try_except, ComputeTarget, get_status.
  unfold mbind, M_bind, bind, send, modify, get, mret, M_ret, ret. simpl.
  rewrite H. simpl. rewrite H. simpl. unfold with_log. by rewrite <- app_assoc.
Qed.

(** The cell on a name that does not. *)
Lemma provision_miss service name NODE_COUNT ws :
  compute_targets ws !! name = None →
  provision service name NODE_COUNT ws =
  let c := AmlCompute_provisioning_configuration "STANDARD_NC6" NODE_COUNT in
  let asked := log ws ++ [GetComputeTarget name; CreateComputeTarget name c] in
  match poll Creating service with
  | None =>
      (Hangs,
       {| compute_targets :=
            <[name := {| configuration := c; state := Creating;
                         upcoming := service |}]> (compute_targets ws);
          runs := runs ws; log := asked |})
  | Some (s, rest, n) =>
      (match s with
       | Succeeded => Returned name
       | _ => Raised ComputeTargetException
       end,
       {| compute_targets :=
            <[name := {| configuration := c; state := s; upcoming := rest |}]>
              (compute_targets ws);
          runs := runs ws;
          log := asked ++ replicate n (RefreshState name) ++
                 match s with
                 | Succeeded => [GetStatus name]
                 | _ => []
                 end |})
  end.
Proof.
  intros H. unfold provision, try_except, ComputeTarget, get_status,
    ComputeTarget_create, wait_for_completion, set_cluster.
  unfold mbind, M_bind, bind, send, modify, get, mret, M_ret, ret, raise. simpl.
  rewrite H. simpl. rewrite lookup_insert_eq. simpl.
  destruct (poll Creating service) as [[[s rest] n]|] eqn:Hp.
  - rewrite refreshes. simpl. rewrite insert_insert_eq.
    destruct s; simpl; rewrite ?lookup_insert_eq; simpl;
      do 2 f_equal; rewrite <- !app_assoc; simpl; by rewrite ?app_nil_r.
  - simpl. by rewrite <- app_assoc.
Qed.


(** C4, as the code has it.  The cell rejects no node count.  On a name
    that resolves it returns the handle whatever [NODE_COUNT] is, without
    building a configuration or asking for anything to be created; on a
    miss the one cluster it asks for has [min_nodes] 0 and [max_nodes]
    [NODE_COUNT], so the bounds it asks for satisfy 0 ≤ min ≤ max exactly
    when [NODE_COUNT] is not negative. *)
Theorem provision_requested_bounds service name NODE_COUNT ws :
  let r := provision service name NODE_COUNT ws in
  (∀ existing, compute_targets ws !! name = Some existing →
     r.1 = Returned name ∧
     compute_targets r.2 !! name = Some existing ∧
     log r.2 = log ws ++ [GetComputeTarget name; GetStatus name]) ∧
  (compute_targets ws !! name = None →
     ∃ c rest,
       log r.2 = log ws ++ [GetComputeTarget name; CreateComputeTarget name c] ++ rest ∧
       (∀ name' c', CreateComputeTarget name' c' ∉ rest) ∧
       vm_size c = "STANDARD_NC6"%string ∧
       min_nodes c = 0 ∧
       max_nodes c = NODE_COUNT ∧
       (0 ≤ min_nodes c ≤ max_nodes c ↔ 0 ≤ NODE_COUNT)).
Proof.
  intros r. subst r. split.
  - intros existing H. by rewrite (provision_hit _ _ _ _ _ H).
  - intros H. rewrite (provision_miss _ _ _ _ H). cbn zeta.
    assert (∀ n (tail : list request) name' c',
      (∀ x, x ∈ tail → x = GetStatus name) →
      CreateComputeTarget name' c' ∉ replicate n (RefreshState name) ++ tail) as Hrest.
    { intros n tail name' c' Htail [[? _]%elem_of_replicate|Hin%Htail]%elem_of_app; done. }
    destruct (poll Creating service) as [[[s rest] n]|]; cbn [fst snd log].
    + rewrite <- app_assoc. eexists _, _. split; [reflexivity|]. split.
      * intros name' c'. apply Hrest. intros x Hx.
        destruct s;
          [by apply elem_of_nil in Hx|by apply list_elem_of_singleton in Hx
          |by apply elem_of_nil in Hx..].
      * simpl. repeat split; lia.
    + exists (AmlCompute_provisioning_configuration "STANDARD_NC6" NODE_COUNT), [].
      split; [by rewrite app_nil_r|]. split; [intros ??; apply not_elem_of_nil|].
      simpl. repeat split; lia.
Qed.


End Workspace.

(** *** A workspace with and without the notebook's cluster *)

Section WorkspaceExamples.
Import AzureML WorkspaceExample.
Local Close Scope string_scope.

(** C4 as stated fails: asked for a cluster of at most 0 nodes under a
    name that exists, the cell raises nothing and returns the cluster
    that is there. *)
Lemma provision_zero_nodes_not_rejected :
  (provision [] cluster_name 0 with_cluster).1 = Returned cluster_name ∧
  compute_targets (provision [] cluster_name 0 with_cluster).2 !! cluster_name
    = Some gpu_entail ∧
  log (provision [] cluster_name 0 with_cluster).2
    = [GetComputeTarget cluster_name; GetStatus cluster_name].
Proof. repeat split; by vm_compute. Qed.

Lemma provision_requested_bounds_witness :
  ∃ c rest,
    log (provision [Creating; Succeeded] cluster_name NODE_COUNT without_cluster).2
      = [GetComputeTarget cluster_name; CreateComputeTarget cluster_name c] ++ rest ∧
    min_nodes c = 0 ∧ max_nodes c = 4 ∧
    0 ≤ min_nodes c ≤ max_nodes c.
Proof.
  destruct (provision_requested_bounds [Creating; Succeeded] cluster_name NODE_COUNT
              without_cluster) as [_ H].
  destruct H as (c & rest & Hlog & _ & _ & Hmin & Hmax & Hbounds); [reflexivity|].
  exists c, rest. split; [exact Hlog|]. split; [exact Hmin|]. split; [exact Hmax|].
  apply Hbounds. unfold NODE_COUNT. lia.
Defined.


End WorkspaceExamples.

(** * Further properties *)

(** ** What a worker does with its arguments *)

Section WorkerArguments.
Import Argparse TrainPy TrainPyCalls.
Variable py_int : string → option Z.
Variable py_float : string → option float.
Let p := parser py_int py_float.






(** X3. Without CUDA the seed is not used: two accepted command lines
    whose attributes differ in [seed] only make the worker do the same,
    call by call and in its outcome, when CUDA is unavailable or
    [--no-cuda] is given. *)
Theorem seed_unused_without_cuda rank cuda argv1 argv2 ns1 ns2 :
  parse_args p argv1 = Returned ns1 →
  parse_args p argv2 = Returned ns2 →
  (∀ d, d ≠ "seed" → ns1 !! d = ns2 !! d) →
  cuda = false ∨ ns1 !! "no_cuda" = Some (VBool true) →
  worker py_int py_float rank cuda argv1 = worker py_int py_float rank cuda argv2.
Proof.
  intros Hparse1 Hparse2 Hsame Hoff.
  rewrite (worker_parsed _ _ _ _ _ _ Hparse1), (worker_parsed _ _ _ _ _ _ Hparse2).
  assert (training_events rank cuda ns1 = training_events rank cuda ns2) as ->; [|done].
  destruct (parse_args_typed _ _ _ _ Hparse1) as [(_ & _ & [no_cuda Hno_cuda] & _) _].
  unfold training_events, cuda_of, epochs_of.
  rewrite <- (Hsame "no_cuda"), <- (Hsame "data_percent_used"), <- (Hsame "epochs")
    by (intros [=]).
  rewrite Hno_cuda.
  assert (negb no_cuda && cuda = false) as ->; [|done].
  destruct Hoff as [->|Hoff]; [apply andb_false_r|].
  rewrite Hno_cuda in Hoff. by simplify_eq.
Qed.




End WorkerArguments.

Section WorkerArgumentExamples.
Import Argparse TrainPy TrainPyCalls ConverterExample.



(** On a machine without CUDA, [--seed 7] changes nothing. *)
Lemma seed_unused_without_cuda_witness :
  worker py_int py_float 1 false ["--seed"; "7"] = worker py_int py_float 1 false [].
Proof.
  apply (seed_unused_without_cuda py_int py_float 1 false ["--seed"; "7"] []
           (<["seed" := VInt 7]> (defaults (parser py_int py_float)))
           (defaults (parser py_int py_float)) eq_refl eq_refl).
  - intros d Hd. by apply lookup_insert_ne.
  - by left.
Defined.



End WorkerArgumentExamples.

(** ** Command lines the script refuses *)

Section RefusedItems.
Import Argparse ArgparseItems.
Variable p : parser.

(** An option that stores a value takes it from the items that follow,
    and passes over nothing but values. *)
Lemma consume_store_taken a o e type rest ns extras ns' :
  act a = store type →
  consume p (IO (Some a) o e :: rest) ns extras = Returned ns' →
  ∃ s v taken rest', type s = Some v ∧ rest = (taken ++ rest')%list ∧
    Forall is_value taken ∧
    consume p rest' (<[dest a := v]> ns) extras = Returned ns'.
Proof.
  intros Ha H. simpl in H.
  assert (match e with
          | Some e => explicit_argument p a o e
          | None => Returned ([], a, None)
          end = Returned ([], a, e)) as Hex.
  { destruct e; [|done]. unfold explicit_argument. by rewrite Ha. }
  rewrite Hex, Ha in H. simpl in H.
  destruct e as [s|].
  - unfold take_store in H. destruct (type s) as [v|] eqn:Hv; [|done].
    exists s, v, [], rest. eauto.
  - assert (∀ s taken rest', rest = (taken ++ rest')%list → Forall is_value taken →
      match take_store a type s ns with
      | Returned ns2 => consume p rest' ns2 extras
      | Raised x => Raised x
      | Hangs => Hangs
      end = Returned ns' →
      ∃ s v taken rest', type s = Some v ∧ rest = (taken ++ rest')%list ∧
        Forall is_value taken ∧
        consume p rest' (<[dest a := v]> ns) extras = Returned ns') as Hfin.
    { intros s taken rest' Hrest Htaken Hc. unfold take_store in Hc.
      destruct (type s) as [v|] eqn:Hv; [|done].
      exists s, v, taken, rest'. eauto. }
    destruct rest as [|[s|??|] rest1]; [done| |done|].
    + destruct rest1 as [|[s1|a1 o1 e1|] rest2].
      * apply (Hfin s [IA s] []); [done|by repeat constructor|done].
      * apply (Hfin s [IA s] (IA s1 :: rest2)); [done|by repeat constructor|done].
      * apply (Hfin s [IA s] (IO a1 o1 e1 :: rest2)); [done|by repeat constructor|done].
      * apply (Hfin s [IA s; IDash] rest2); [done|by repeat constructor|done].
    + destruct rest1 as [|[s|??|] rest2]; [done| |done..].
      apply (Hfin s [IDash; IA s] rest2); [done|by repeat constructor|done].
Qed.

Lemma consume_store_true_taken a o e rest ns extras ns' :
  act a = store_true → second_is_dash o = true →
  consume p (IO (Some a) o e :: rest) ns extras = Returned ns' →
  ∃ taken rest', rest = (taken ++ rest')%list ∧ Forall is_value taken ∧
    consume p rest' (<[dest a := VBool true]> ns) extras = Returned ns'.
Proof.
  intros Ha Ho H. simpl in H. destruct e as [e|].
  { unfold explicit_argument in H. by rewrite Ha, Ho in H. }
  rewrite Ha in H. simpl in H. unfold take_flag in H. rewrite Ha in H.
  destruct rest as [|[| |] rest'].
  - by exists [], [].
  - by eexists [], _.
  - by eexists [], _.
  - exists [IDash], rest'. split; [done|]. split; [by repeat constructor|done].
Qed.

(** The first pass, string by string, up to the first ["--"]. *)
Lemma classify_lookup argv items i s :
  classify p false argv = Some items →
  argv !! i = Some s → "--" ∉ take (S i) argv →
  ∃ it, item_of p s = Some it ∧ items !! i = Some it.
Proof.
  revert items i. induction argv as [|s0 argv IH]; intros items i Hc Hi Hdash; [done|].
  simpl in Hc. rewrite firstn_cons in Hdash.
  apply not_elem_of_cons in Hdash as [Hs0 Hdash].
  rewrite (proj2 (String.eqb_neq s0 "--")) in Hc by done.
  unfold item_of.
  destruct i as [|i]; simpl in Hi.
  - simplify_eq. destruct (parse_optional p s) as [|a o e|]; [| |done];
      destruct (classify p false argv); simplify_eq/=; eauto.
  - assert (∃ it0 items', items = it0 :: items' ∧ classify p false argv = Some items')
      as (it0 & items' & -> & Hc').
    { destruct (parse_optional p s0) as [|a o e|]; [| |done];
        destruct (classify p false argv); simplify_eq/=; eauto. }
    apply (IH items' i Hc' Hi Hdash).
Qed.

(** Before any ["--"], the first pass looks at a string only through
    what [parse_optional] makes of it. *)
Lemma classify_same_option before s1 s2 after :
  "--" ∉ before → s1 ≠ "--" → s2 ≠ "--" →
  parse_optional p s1 = parse_optional p s2 →
  parse_optional p s1 ≠ positional →
  classify p false (before ++ s1 :: after)%list
  = classify p false (before ++ s2 :: after)%list.
Proof.
  intros Hdash H1 H2 Hsame Hopt.
  induction before as [|s0 before IH]; simpl.
  - rewrite (proj2 (String.eqb_neq s1 "--")), (proj2 (String.eqb_neq s2 "--")) by done.
    rewrite <- Hsame. destruct (parse_optional p s1); [exfalso; by apply Hopt|done..].
  - apply not_elem_of_cons in Hdash as [Hs0 Hdash].
    rewrite (proj2 (String.eqb_neq s0 "--")) by done. by rewrite IH.
Qed.

End RefusedItems.

Section RefusedCommandLines.
Import Argparse ArgparseItems TrainPy.
Variable py_int : string → option Z.
Variable py_float : string → option float.
Let p := parser py_int py_float.

(** Once a string is left over, or with an unknown option or the help
    option still to come, the second pass does not return. *)
Lemma consume_fatal items :
  ∀ ns extras ns',
    Forall (item_ok p) items →
    extras = true ∨ Exists fatal items →
    consume p items ns extras ≠ Returned ns'.
Proof.
  induction (Nat.lt_wf_0_projected length items) as [items _ IH].
  intros ns extras ns' Hok Hfatal H.
  destruct items as [|it rest].
  { destruct Hfatal as [->|Hex]; [done|]. by apply Exists_nil in Hex. }
  apply Forall_cons in Hok as [Hit Hok].
  assert (consume p rest ns true ≠ Returned ns') as Hskip.
  { apply IH; [simpl; lia|done|by left]. }
  destruct it as [s|[a|] o e|]; [done| |done..].
  assert (∀ ns1 taken rest',
    rest = (taken ++ rest')%list → Forall is_value taken → act a ≠ help →
    consume p rest' ns1 extras ≠ Returned ns') as Hnext.
  { intros ns1 taken rest' -> Htaken Ha. apply IH.
    - rewrite length_cons, length_app. lia.
    - apply Forall_app in Hok. tauto.
    - destruct Hfatal as [?|Hex]; [by left|right].
      apply Exists_cons in Hex as [?|Hex]; [done|].
      apply Exists_app in Hex as [Hex|?]; [|done].
      apply Exists_exists in Hex as (it & Hin & Hit').
      rewrite Forall_forall in Htaken. specialize (Htaken it Hin).
      by destruct it as [|[]|]. }
  apply parser_declared in Hit.
  destruct Hit as [o a Ha|a Hd Ha _|a Hd Ha _|a Hd Ha _|a Hd Ha _].
  - by apply consume_help in H.
  - apply (consume_store_taken _ _ _ _ _ _ _ _ _ Ha) in H
      as (s & v & taken & rest' & _ & ? & ? & H).
    revert H. eapply Hnext; [done..|by rewrite Ha].
  - apply (consume_store_taken _ _ _ _ _ _ _ _ _ Ha) in H
      as (s & v & taken & rest' & _ & ? & ? & H).
    revert H. eapply Hnext; [done..|by rewrite Ha].
  - apply (consume_store_true_taken _ _ _ _ _ _ _ _ Ha) in H
      as (taken & rest' & ? & ? & H); [|done].
    revert H. eapply Hnext; [done..|by rewrite Ha].
  - apply (consume_store_taken _ _ _ _ _ _ _ _ _ Ha) in H
      as (s & v & taken & rest' & _ & ? & ? & H).
    revert H. eapply Hnext; [done..|by rewrite Ha].
Qed.

(** A command line with an unknown option or the help option before any
    ["--"] is not accepted. *)
Lemma parse_args_fatal argv i s it :
  argv !! i = Some s → "--" ∉ take (S i) argv →
  item_of p s = Some it → fatal it →
  ∀ ns, parse_args p argv ≠ Returned ns.
Proof.
  intros Hi Hdash Hit Hfatal ns. unfold parse_args.
  destruct (classify p false argv) as [items|] eqn:Hc; [|done].
  destruct (classify_lookup _ _ _ _ _ Hc Hi Hdash) as (it' & Hit' & Hitems).
  simplify_eq. apply consume_fatal.
  - by apply classify_items in Hc as [? _].
  - right. apply Exists_exists. exists it. split; [|done].
    by eapply list_elem_of_lookup_2.
Qed.

(** X6. On a command line the script accepts, every string before a
    ["--"] either reads as a plain value or selects one of the four
    flags (by its name, an abbreviation, or either with [=value]): an
    option the parser does not have, or the help option, is never part
    of an accepted command line. *)
Theorem accepted_command_line_strings argv ns i s :
  parse_args p argv = Returned ns →
  argv !! i = Some s → "--" ∉ take (S i) argv →
  parse_optional p s = positional ∨
  ∃ d, selects p s = Some d ∧
       d ∈ ["seed"; "epochs"; "no_cuda"; "data_percent_used"].
Proof.
  intros Hparse Hi Hdash.
  pose proof (λ it H1 H2, parse_args_fatal argv i s it Hi Hdash H1 H2 ns Hparse) as Hnot.
  unfold item_of in Hnot. unfold selects.
  destruct (parse_optional p s) as [|[a|] o e|] eqn:Hs.
  - by left.
  - right. exists (dest a). split; [done|].
    pose proof (parse_optional_elem _ _ _ _ _ Hs) as Hin.
    apply parser_declared in Hin.
    destruct Hin as [o a Ha|a -> _ _|a -> _ _|a -> _ _|a -> _ _].
    + by destruct (Hnot _ eq_refl).
    + rewrite !elem_of_cons. tauto.
    + rewrite !elem_of_cons. tauto.
    + rewrite !elem_of_cons. tauto.
    + rewrite !elem_of_cons. tauto.
  - by destruct (Hnot _ eq_refl).
  - unfold parse_args in Hparse.
    destruct (classify p false argv) as [items|] eqn:Hc; [|done].
    destruct (classify_lookup _ _ _ _ _ Hc Hi Hdash) as (it' & Hit' & _).
    unfold item_of in Hit'. by rewrite Hs in Hit'.
Qed.

(** X7. Asking for help never trains: when a string before any ["--"]
    selects the help option ([-h], [--help], or what abbreviates it),
    [parse_args] does not return, whatever else is on the command line,
    and the worker has called [hvd.init()] and nothing else. *)
Theorem help_option_never_trains rank cuda argv i s :
  argv !! i = Some s → "--" ∉ take (S i) argv →
  selects p s = Some "help" →
  (∀ ns, parse_args p argv ≠ Returned ns) ∧
  (worker py_int py_float rank cuda argv).1 ≠ Returned tt ∧
  (worker py_int py_float rank cuda argv).2 = [HvdInit].
Proof.
  intros Hi Hdash Hs.
  assert (∀ ns, parse_args p argv ≠ Returned ns) as Hnot.
  { unfold selects in Hs.
    destruct (parse_optional p s) as [|[a|] o e|] eqn:Hp; simplify_eq.
    apply (parse_args_fatal argv i s (IO (Some a) o e) Hi Hdash).
    - unfold item_of. by rewrite Hp.
    - pose proof (parse_optional_elem _ _ _ _ _ Hp) as Hin.
      apply parser_declared in Hin.
      by destruct Hin as [o a Ha|a Hd _ _|a Hd _ _|a Hd _ _|a Hd _ _];
        [|rewrite Hd in Hs..]. }
  split; [done|]. rewrite worker_not_parsed by done. fold p.
  split; [|done]. simpl. by destruct (parse_args p argv) as [ns| |]; [destruct (Hnot ns)|..].
Qed.

(** The proper prefixes of a flag, by length. *)
Lemma abbreviation_cases flag pre :
  flag ∈ ["--seed"; "--epochs"; "--no-cuda"; "--data_percent_used"] →
  String.prefix pre flag = true → (3 ≤ String.length pre)%nat →
  pre ≠ "--" ∧ flag ≠ "--" ∧
  parse_optional p pre = parse_optional p flag ∧
  parse_optional p flag ≠ positional ∧
  ∀ v, parse_optional p (pre +:+ "=" +:+ v) = parse_optional p (flag +:+ "=" +:+ v) ∧
       parse_optional p (flag +:+ "=" +:+ v) ≠ positional ∧
       pre +:+ "=" +:+ v ≠ "--" ∧ flag +:+ "=" +:+ v ≠ "--".
Proof.
  intros Hflag Hpre Hlen. apply String.prefix_correct in Hpre.
  remember (String.length pre) as n eqn:Hn.
  rewrite !elem_of_cons, elem_of_nil in Hflag.
  destruct Hflag as [->|[->|[->|[->|[]]]]];
    do 20 (destruct n as [|n];
           [try lia; simpl in Hpre; subst pre; try discriminate Hn;
            repeat split; try intros v; repeat split; by vm_compute|]);
    simpl in Hpre; subst pre; discriminate Hn.
Qed.

(** X8. Abbreviated flags: a prefix of one of the four flags, with at
    least one letter after the two dashes, can stand for the flag
    anywhere before a ["--"], alone or with [=value]; [parse_args] gives
    the same result as for the flag written out. *)
Theorem abbreviated_flag_accepted flag pre before after :
  flag ∈ ["--seed"; "--epochs"; "--no-cuda"; "--data_percent_used"] →
  String.prefix pre flag = true → (3 ≤ String.length pre)%nat →
  "--" ∉ before →
  parse_args p (before ++ pre :: after)%list
    = parse_args p (before ++ flag :: after)%list ∧
  ∀ v, parse_args p (before ++ (pre +:+ "=" +:+ v) :: after)%list
       = parse_args p (before ++ (flag +:+ "=" +:+ v) :: after)%list.
Proof.
  intros Hflag Hpre Hlen Hdash.
  destruct (abbreviation_cases _ _ Hflag Hpre Hlen) as (H1 & H2 & Hsame & Hopt & Heq).
  unfold parse_args. split.
  - rewrite (classify_same_option p before pre flag after); [done..|by rewrite Hsame].
  - intros v. destruct (Heq v) as (Hsame' & Hopt' & H1' & H2').
    rewrite (classify_same_option p before _ (flag +:+ "=" +:+ v) after);
      [done..|by rewrite Hsame'].
Qed.

End RefusedCommandLines.

Section RefusedCommandLineExamples.
Import Argparse TrainPy ConverterExample.

Ltac decided := apply (bool_decide_unpack _); vm_compute; exact I.

(** The flag of an accepted command line. *)
Lemma accepted_command_line_strings_witness :
  parse_args (parser py_int py_float) ["--epochs"; "5"]
    = Returned (<["epochs" := VInt 5]> (defaults (parser py_int py_float))) ∧
  ∃ d, selects (parser py_int py_float) "--epochs" = Some d ∧
       d ∈ ["seed"; "epochs"; "no_cuda"; "data_percent_used"].
Proof.
  split; [reflexivity|].
  destruct (accepted_command_line_strings py_int py_float ["--epochs"; "5"]
              (<["epochs" := VInt 5]> (defaults (parser py_int py_float)))
              0 "--epochs" eq_refl eq_refl) as [Hvalue|Hflag].
  - decided.
  - by vm_compute in Hvalue.
  - exact Hflag.
Defined.

(** [--help] after a well-formed flag. *)
Lemma help_option_never_trains_witness :
  (worker py_int py_float 0 true ["--epochs"; "5"; "--help"]).1 ≠ Returned tt ∧
  (worker py_int py_float 0 true ["--epochs"; "5"; "--help"]).2 = [HvdInit].
Proof.
  destruct (help_option_never_trains py_int py_float 0 true
              ["--epochs"; "5"; "--help"] 2 "--help" eq_refl) as (_ & Houtcome & Htrace).
  - decided.
  - reflexivity.
  - split; [exact Houtcome|exact Htrace].
Defined.

(** [--epo 5] for [--epochs 5]. *)
Lemma abbreviated_flag_accepted_witness :
  parse_args (parser py_int py_float) ["--epo"; "5"]
  = parse_args (parser py_int py_float) ["--epochs"; "5"].
Proof.
  destruct (abbreviated_flag_accepted py_int py_float "--epochs" "--epo" [] ["5"])
    as [Hsame _].
  - decided.
  - reflexivity.
  - simpl. lia.
  - apply not_elem_of_nil.
  - exact Hsame.
Defined.

End RefusedCommandLineExamples.

(** ** The staging cell on other file systems *)

Section StagingEdges.
Import Shutil Packager FileTree.
Local Close Scope string_scope.
Implicit Types (p k src dst : path) (fs : filesystem).

Lemma mkdir_subseteq p fs : fs ⊆ (mkdir p fs).2.
Proof.
  unfold mkdir, exists_. case_bool_decide as Hex; [done|].
  destruct (stat fs (dirname p)) as [[]|]; [done| |done]. simpl.
  apply insert_subseteq. destruct p; [|by apply eq_None_not_Some].
  destruct Hex. simpl. eauto.
Qed.

(** [makedirs] only adds entries, whatever its outcome. *)
Lemma makedirs_rev_subseteq rname fs : fs ⊆ (makedirs_rev rname fs).2.
Proof.
  revert fs. induction rname as [|tail rhead IH]; intros fs.
  { apply mkdir_subseteq. }
  rewrite makedirs_rev_cons.
  assert (fs ⊆ (if bool_decide (rhead ≠ []) && negb (exists_ fs (reverse rhead))
                then try_except (makedirs_rev rhead) is_FileExistsError (mret tt) fs
                else (Returned tt, fs)).2) as Hparents.
  { destruct (bool_decide (rhead ≠ []) && negb (exists_ fs (reverse rhead))); [|done].
    unfold try_except. specialize (IH fs).
    destruct (makedirs_rev rhead fs) as [[[]|e|] fs']; [done| |done].
    by destruct (is_FileExistsError e). }
  destruct (if bool_decide (rhead ≠ []) && negb (exists_ fs (reverse rhead))
            then try_except (makedirs_rev rhead) is_FileExistsError (mret tt) fs
            else (Returned tt, fs)) as [[[]|e|] fs']; [|done..].
  etrans; [done|]. apply mkdir_subseteq.
Qed.

(** [copytree] changes nothing outside its destination, whatever its
    outcome. *)
Lemma copytree_keeps src dst fs k v :
  fs !! k = Some v → ¬ dst `prefix_of` k →
  (copytree src dst fs).2 !! k = Some v.
Proof.
  intros Hk Hout. unfold copytree.
  destruct (stat fs src) as [[]|]; [done| |done].
  pose proof (makedirs_rev_subseteq (reverse dst) fs) as Hsub.
  unfold makedirs. destruct (makedirs_rev (reverse dst) fs) as [[[]|e|] fs']; simpl in *.
  - rewrite lookup_union_r.
    + by eapply lookup_weaken.
    + rewrite lookup_copied. by apply relative_to_None in Hout as ->.
  - by eapply lookup_weaken.
  - by eapply lookup_weaken.
Qed.


(** X10. When the library tree to copy does not exist, the cell raises
    [FileNotFoundError]; with [DEBUG] set it has by then deleted the
    staging directory and all it held, and nothing else; without [DEBUG]
    it has changed nothing. *)
Theorem stage_missing_library_loses_staging_dir utils_nlp parent name fs :
  let project_dir := parent ++ [name] in
  stat fs utils_nlp = None →
  fs !! project_dir = Some Dir →
  stage true utils_nlp project_dir fs
    = (Raised FileNotFoundError, without project_dir fs) ∧
  (∀ k, project_dir `prefix_of` k → without project_dir fs !! k = None) ∧
  (∀ k, ¬ project_dir `prefix_of` k → without project_dir fs !! k = fs !! k) ∧
  stage false utils_nlp project_dir fs = (Raised FileNotFoundError, fs).
Proof.
  intros project_dir Hsrc Hpd. subst project_dir.
  split; [|split; [|split]].
  - unfold stage, mbind, M_bind, bind.
    assert (exists_ fs (parent ++ [name]) = true) as ->.
    { unfold exists_. rewrite stat_snoc, Hpd. by apply bool_decide_eq_true_2. }
    simpl. rewrite rmtree_Dir by (by rewrite stat_snoc).
    unfold copytree.
    assert (stat (without (parent ++ [name]) fs) utils_nlp = None) as ->; [|done].
    destruct utils_nlp as [|x u]; [done|]. simpl in *.
    rewrite lookup_without. by case_decide.
  - intros k Hk. by rewrite lookup_without, decide_True.
  - intros k Hk. by rewrite lookup_without, decide_False.
  - unfold stage, mbind, M_bind, bind. simpl. unfold copytree. by rewrite Hsrc.
Qed.

(** X11. When the staging path is a file, the cell raises
    [NotADirectoryError] and changes nothing: with [DEBUG] set at
    [rmtree], without it (the library tree existing) at [copytree]. *)
Theorem stage_onto_file utils_nlp parent name content fs :
  let project_dir := parent ++ [name] in
  let dst := join project_dir "utils_nlp" in
  fs !! project_dir = Some (File content) →
  stage true utils_nlp project_dir fs = (Raised NotADirectoryError, fs) ∧
  (stat fs utils_nlp = Some Dir → fs !! dst = None →
   stage false utils_nlp project_dir fs = (Raised NotADirectoryError, fs)).
Proof.
  intros project_dir dst Hpd. subst project_dir dst. split.
  - unfold stage, mbind, M_bind, bind.
    assert (exists_ fs (parent ++ [name]) = true) as ->.
    { unfold exists_. rewrite stat_snoc, Hpd. by apply bool_decide_eq_true_2. }
    simpl. unfold rmtree. by rewrite stat_snoc, Hpd.
  - intros Hsrc Hdst. unfold stage, mbind, M_bind, bind. simpl.
    unfold copytree. rewrite Hsrc. unfold makedirs, join in *.
    rewrite !reverse_snoc, makedirs_rev_cons.
    rewrite !reverse_cons, reverse_involutive. unfold exists_ at 1.
    rewrite stat_snoc, Hpd, (bool_decide_eq_true_2 (is_Some _)) by done.
    rewrite andb_false_r. unfold mkdir, exists_.
    rewrite stat_snoc, Hdst, bool_decide_eq_false_2 by apply is_Some_None.
    by rewrite dirname_snoc, stat_snoc, Hpd.
Qed.

(** X12. What the cell never touches, whether it returns or raises:
    an entry outside the staging directory stays as it is, whatever
    [DEBUG] is; and without [DEBUG] so does every entry outside the
    copy's destination, the rest of the staging directory included. *)
Theorem stage_keeps_entries_outside utils_nlp project_dir fs k v :
  fs !! k = Some v →
  (∀ DEBUG, ¬ project_dir `prefix_of` k →
     (stage DEBUG utils_nlp project_dir fs).2 !! k = Some v) ∧
  (¬ join project_dir "utils_nlp" `prefix_of` k →
     (stage false utils_nlp project_dir fs).2 !! k = Some v).
Proof.
  intros Hk. split.
  - intros DEBUG Hout.
    assert (¬ join project_dir "utils_nlp" `prefix_of` k) as Hdst.
    { intros H. apply Hout. etrans; [|done]. by eexists. }
    unfold stage, mbind, M_bind, bind.
    destruct (DEBUG && exists_ fs project_dir); [|by apply copytree_keeps].
    unfold rmtree. destruct (stat fs project_dir) as [[]|]; [done| |done].
    apply copytree_keeps; [|done]. by rewrite lookup_without, decide_False.
  - intros Hdst. unfold stage, mbind, M_bind, bind. simpl.
    by apply copytree_keeps.
Qed.

(** *** The file system stays a tree *)

Lemma stat_insert_Dir fs p k :
  stat fs k = Some Dir → stat (<[p := Dir]> fs) k = Some Dir.
Proof.
  destruct k as [|x k]; [done|]. simpl. intros H.
  destruct (decide (p = x :: k)) as [->|?].
  - by rewrite lookup_insert_eq.
  - by rewrite lookup_insert_ne.
Qed.

Lemma snoc_not_prefix k x : ¬ (k ++ [x]) `prefix_of` k.
Proof. intros ?%prefix_length. rewrite length_app in *. simpl in *. lia. Qed.

Lemma mkdir_Returned p fs fs' :
  mkdir p fs = (Returned tt, fs') →
  p ≠ [] ∧ fs !! p = None ∧ stat fs (dirname p) = Some Dir ∧ fs' = <[p := Dir]> fs.
Proof.
  unfold mkdir, exists_. case_bool_decide as Hex; [done|].
  destruct (stat fs (dirname p)) as [[]|] eqn:Hparent; [done| |done].
  intros [= <-]. destruct p as [|x p]; [destruct Hex; simpl; eauto|].
  split; [done|]. split; [|done]. by apply eq_None_not_Some.
Qed.

Lemma tree_mkdir p fs : tree fs → tree (mkdir p fs).2.
Proof.
  intros Htree. destruct (mkdir p fs) as [[[]|e|] fs'] eqn:Hrun; simpl.
  - apply mkdir_Returned in Hrun as (Hp & Hnew & Hparent & ->).
    destruct Htree as [Hroot Hin]. split.
    + by rewrite lookup_insert_ne.
    + intros k x His. apply stat_insert_Dir.
      destruct (decide (p = k ++ [x])) as [->|Hne].
      * by rewrite dirname_snoc in Hparent.
      * rewrite lookup_insert_ne in His by done. by eapply Hin.
  - revert Hrun. unfold mkdir. repeat case_match; by intros [= <- <-].
  - revert Hrun. unfold mkdir. repeat case_match; by intros [=].
Qed.

(** What [makedirs] leaves, whatever its outcome: a tree again, with
    the old entries and new directories on the way to the one asked
    for. *)
Lemma makedirs_rev_spec rname fs :
  (tree fs → tree (makedirs_rev rname fs).2) ∧
  ∀ k, (makedirs_rev rname fs).2 !! k = fs !! k ∨
       ((makedirs_rev rname fs).2 !! k = Some Dir ∧ k `prefix_of` reverse rname).
Proof.
  revert fs. induction rname as [|tail rhead IH]; intros fs.
  { split; [apply tree_mkdir|]. intros k. left. simpl. unfold mkdir. by simpl. }
  rewrite makedirs_rev_cons.
  set (parents := if bool_decide (rhead ≠ []) && negb (exists_ fs (reverse rhead))
                  then try_except (makedirs_rev rhead) is_FileExistsError (mret tt) fs
                  else (Returned tt, fs)).
  assert ((tree fs → tree parents.2) ∧
          ∀ k, parents.2 !! k = fs !! k ∨
               (parents.2 !! k = Some Dir ∧ k `prefix_of` reverse rhead))
    as [Htree Hspec].
  { subst parents.
    destruct (bool_decide (rhead ≠ []) && negb (exists_ fs (reverse rhead)));
      [|split; [done|by left]].
    unfold try_except. specialize (IH fs).
    destruct (makedirs_rev rhead fs) as [[[]|e|] fs']; [done| |done].
    by destruct (is_FileExistsError e). }
  assert (∀ k, k `prefix_of` reverse rhead → k `prefix_of` reverse (tail :: rhead))
    as Hprefix.
  { intros k Hk. rewrite reverse_cons. by apply prefix_app_r. }
  destruct parents as [[[]|e|] fs'']; simpl in *.
  - split.
    + intros Hfs. by apply tree_mkdir, Htree.
    + intros k. destruct (mkdir (reverse (tail :: rhead)) fs'') as [[[]|e|] fs'] eqn:Hrun.
      * apply mkdir_Returned in Hrun as (_ & _ & _ & ->). simpl.
        destruct (decide (k = reverse (tail :: rhead))) as [->|Hne].
        { right. by rewrite lookup_insert_eq. }
        rewrite lookup_insert_ne by done. destruct (Hspec k) as [?|[? ?]]; auto.
      * assert (fs' = fs'') as ->.
        { revert Hrun. unfold mkdir. repeat case_match; by intros [=]. }
        simpl. destruct (Hspec k) as [?|[? ?]]; auto.
      * revert Hrun. unfold mkdir. repeat case_match; by intros [=].
  - split; [done|]. intros k. destruct (Hspec k) as [?|[? ?]]; auto.
  - split; [done|]. intros k. destruct (Hspec k) as [?|[? ?]]; auto.
Qed.

Lemma makedirs_Returned dst fs fs' :
  makedirs dst fs = (Returned tt, fs') →
  dst ≠ [] ∧ fs !! dst = None ∧ fs' !! dst = Some Dir.
Proof.
  unfold makedirs. destruct (reverse dst) as [|tail rhead] eqn:Hrev.
  { simpl. unfold mkdir. by simpl. }
  assert (dst = reverse (tail :: rhead)) as ->.
  { by rewrite <- Hrev, reverse_involutive. }
  rewrite makedirs_rev_cons.
  pose proof (makedirs_rev_subseteq rhead fs) as Hsub.
  set (parents := if bool_decide (rhead ≠ []) && negb (exists_ fs (reverse rhead))
                  then try_except (makedirs_rev rhead) is_FileExistsError (mret tt) fs
                  else (Returned tt, fs)).
  assert (fs ⊆ parents.2) as Hparents.
  { subst parents.
    destruct (bool_decide (rhead ≠ []) && negb (exists_ fs (reverse rhead))); [|done].
    unfold try_except.
    destruct (makedirs_rev rhead fs) as [[[]|e|] fs'']; [done| |done].
    by destruct (is_FileExistsError e). }
  destruct parents as [[[]|e|] fs'']; [|done..]. simpl in *.
  intros (Hne & Hnew & _ & ->)%mkdir_Returned.
  split; [done|]. split; [|by rewrite lookup_insert_eq].
  destruct (fs !! reverse (tail :: rhead)) as [v|] eqn:Hv; [|done].
  by rewrite (lookup_weaken _ _ _ _ Hv Hparents) in Hnew.
Qed.

(** In a tree nothing lies under a path that does not exist. *)
Lemma tree_nothing_under fs dst k :
  tree fs → dst ≠ [] → fs !! dst = None → dst `prefix_of` k → fs !! k = None.
Proof.
  intros [_ Hin] Hne Hdst [r ->].
  induction r as [|x r IH] using rev_ind; [by rewrite app_nil_r|].
  destruct (fs !! (dst ++ r ++ [x])) as [v|] eqn:Hv; [|done].
  rewrite app_assoc in Hv.
  assert (stat fs (dst ++ r) = Some Dir) as Hparent by (apply (Hin _ x); eauto).
  rewrite stat_lookup, IH in Hparent; [done|].
  by destruct dst.
Qed.

Lemma tree_without p fs : tree fs → tree (without p fs).
Proof.
  intros [Hroot Hin]. split.
  - rewrite lookup_without. by case_decide.
  - intros k x. rewrite lookup_without. case_decide as Hp; [by intros []|].
    intros His. specialize (Hin k x His).
    destruct k as [|y k]; [done|]. simpl in *.
    rewrite lookup_without, decide_False; [done|].
    intros H. apply Hp. exact (prefix_app_r p (y :: k) [x] H).
Qed.

Lemma tree_copytree src dst fs : tree fs → tree (copytree src dst fs).2.
Proof.
  intros Htree. unfold copytree.
  destruct (stat fs src) as [[]|]; [done| |done].
  destruct (makedirs_rev_spec (reverse dst) fs) as [Htree' Hspec].
  specialize (Htree' Htree). rewrite reverse_involutive in Hspec.
  fold (makedirs dst) in Htree', Hspec.
  destruct (makedirs dst fs) as [[[]|e|] fs'] eqn:Hrun; [|done..].
  apply makedirs_Returned in Hrun as (Hne & Hnew & Hdst). simpl in *.
  assert (∀ k, ¬ dst `prefix_of` k → copied src dst fs !! k = None) as Hout.
  { intros k Hk. rewrite lookup_copied. by apply relative_to_None in Hk as ->. }
  destruct Htree as [Hroot Hin], Htree' as [Hroot' Hin']. split.
  { rewrite lookup_union_r; [done|]. apply Hout. intros H. by apply prefix_nil_inv in H. }
  intros k x His.
  assert (stat fs' k = Some Dir → copied src dst fs !! k = None →
          stat (copied src dst fs ∪ fs') k = Some Dir) as Hfrom.
  { destruct k as [|y k]; [done|]. simpl. intros ? ?. by rewrite lookup_union_r. }
  destruct (copied src dst fs !! (k ++ [x])) as [v|] eqn:Hcopy.
  - rewrite lookup_copied in Hcopy.
    destruct (relative_to dst (k ++ [x])) as [r|] eqn:Hrel; [simpl in Hcopy|done].
    apply relative_to_Some in Hrel.
    destruct r as [|y r _] using rev_ind.
    + rewrite app_nil_r in Hrel. subst dst. apply Hfrom.
      * apply (Hin' k x). eauto.
      * apply Hout, snoc_not_prefix.
    + rewrite app_assoc in Hrel. apply app_inj_tail in Hrel as [-> ->].
      rewrite app_assoc in Hcopy.
      assert (stat fs (src ++ r) = Some Dir) as Hparent by (apply (Hin _ y); eauto).
      rewrite stat_lookup by (by destruct dst).
      destruct (decide (src ++ r = [])) as [Hnil|Hnil].
      * apply app_eq_nil in Hnil as [-> ->].
        rewrite lookup_union_r; [by rewrite app_nil_r|].
        by rewrite lookup_copied, relative_to_app.
      * rewrite stat_lookup in Hparent by done.
        rewrite lookup_union_l'; rewrite lookup_copied, relative_to_app; simpl; eauto.
  - rewrite lookup_union_r in His by done.
    pose proof (Hin' k x His) as Hparent.
    destruct (copied src dst fs !! k) as [w|] eqn:Hk; [|by apply Hfrom].
    rewrite lookup_copied in Hk.
    destruct (relative_to dst k) as [r|] eqn:Hrel; [|done].
    apply relative_to_Some in Hrel as ->.
    destruct (Hspec ((dst ++ r) ++ [x])) as [Hold|[_ Hpre]].
    + rewrite Hold in His.
      rewrite (tree_nothing_under fs dst) in His; [by destruct His|done..|].
      rewrite <- app_assoc. by eexists.
    + apply prefix_length in Hpre. rewrite !length_app in Hpre. simpl in Hpre. lia.
Qed.

(** A check of [tree] entry by entry. *)
Lemma tree_map_Forall fs :
  map_Forall (λ k _, k ≠ [] ∧ stat fs (dirname k) = Some Dir) fs → tree fs.
Proof.
  intros Hall. split.
  - destruct (fs !! []) as [v|] eqn:Hv; [|done]. by destruct (Hall _ _ Hv).
  - intros k x [v Hv]. destruct (Hall _ _ Hv) as [_ Hparent].
    by rewrite dirname_snoc in Hparent.
Qed.

(** X13. The cell keeps the file system a tree, whatever [DEBUG] is and
    whether it returns or raises: afterwards nothing is stored for the
    root, and every entry, those of the copy included, lies in a
    directory that exists. *)
Theorem stage_keeps_tree DEBUG utils_nlp project_dir fs :
  tree fs → tree (stage DEBUG utils_nlp project_dir fs).2.
Proof.
  intros Htree. unfold stage, mbind, M_bind, bind.
  destruct (DEBUG && exists_ fs project_dir); [|by apply tree_copytree].
  unfold rmtree. destruct (stat fs project_dir) as [[]|]; [done| |done].
  by apply tree_copytree, tree_without.
Qed.

End StagingEdges.

Section StagingEdgeExamples.
Import Shutil Packager FileTree StagingExample StagingEdgeExample.

Ltac decided := apply (bool_decide_unpack _); vm_compute; exact I.


(** The library tree is missing: the old script of the staging directory
    is lost. *)
Lemma stage_missing_library_loses_staging_dir_witness :
  (stage true (utils_nlp cwd) (project_dir cwd) fs_no_library).1
    = Raised FileNotFoundError ∧
  fs_no_library !! join (project_dir cwd) "train.py" = Some (File "old") ∧
  (stage true (utils_nlp cwd) (project_dir cwd) fs_no_library).2
    !! join (project_dir cwd) "train.py" = None.
Proof.
  destruct (stage_missing_library_loses_staging_dir (utils_nlp cwd) cwd "entail_utils"
              fs_no_library eq_refl eq_refl) as (Hrun & Hgone & _ & _).
  split; [exact (f_equal fst Hrun)|]. split; [reflexivity|].
  etrans; [exact (f_equal (λ r, r.2 !! join (project_dir cwd) "train.py") Hrun)|].
  apply Hgone. by exists ["train.py"].
Defined.

Lemma stage_onto_file_witness :
  stage true (utils_nlp cwd) (project_dir cwd) fs_file_in_place
  = (Raised NotADirectoryError, fs_file_in_place).
Proof.
  exact (proj1 (stage_onto_file (utils_nlp cwd) cwd "entail_utils" "notes"
                  fs_file_in_place eq_refl)).
Defined.

(** The library's own file with [DEBUG] set, and the old script of the
    staging directory without it. *)
Lemma stage_keeps_entries_outside_witness :
  (stage true (utils_nlp cwd) (project_dir cwd) fs0).2
    !! join (utils_nlp cwd) "common.py" = Some (File "new") ∧
  (stage false (utils_nlp cwd) (project_dir cwd) fs0).2
    !! join (project_dir cwd) "train.py" = Some (File "old").
Proof.
  split.
  - destruct (stage_keeps_entries_outside (utils_nlp cwd) (project_dir cwd) fs0
                (join (utils_nlp cwd) "common.py") (File "new") eq_refl) as [Hout _].
    apply Hout. decided.
  - destruct (stage_keeps_entries_outside (utils_nlp cwd) (project_dir cwd) fs0
                (join (project_dir cwd) "train.py") (File "old") eq_refl) as [_ Hout].
    apply Hout. decided.
Defined.

Lemma stage_keeps_tree_witness :
  tree fs0 ∧ tree (stage true (utils_nlp cwd) (project_dir cwd) fs0).2.
Proof.
  assert (tree fs0) as Htree by (apply tree_map_Forall; decided).
  split; [exact Htree|]. by apply stage_keeps_tree.
Defined.

End StagingEdgeExamples.

(** ** The frame of the report cell *)

Section FrameShape.
Import Report ReportShape.
Local Close Scope Z_scope.
Implicit Types (l seen : list string) (parsed : document) (df : DataFrame).

Lemma fmap_default_lookup_seq {A} (d : A) (l : list A) :
  (λ j, default d (l !! j)) <$> seq 0 (length l) = l.
Proof.
  apply list_eq. intros i. rewrite list_lookup_fmap.
  destruct (decide (i < length l)) as [Hi|Hi].
  - rewrite lookup_seq_lt by done. simpl.
    destruct (lookup_lt_is_Some_2 l i Hi) as [x Hx]. by rewrite Hx.
  - rewrite lookup_seq_ge by lia. symmetry. apply lookup_ge_None. lia.
Qed.

Lemma position_lt l k i : position l k = Some i → i < length l.
Proof. intros H%position_Some. by eapply lookup_lt_Some. Qed.

Lemma position_None l k : position l k = None ↔ k ∉ l.
Proof.
  split.
  - intros H Hin. apply position_elem in Hin as [i Hi]. congruence.
  - intros H. destruct (position l k) as [i|] eqn:Hi; [|done].
    apply position_Some, list_elem_of_lookup_2 in Hi. done.
Qed.

Lemma rectangular_from_dict sort parsed : rectangular (from_dict sort parsed).
Proof.
  split; simpl.
  - by rewrite length_fmap.
  - apply Forall_fmap, Forall_forall. intros k _. simpl. by rewrite !length_fmap.
Qed.

Lemma rectangular_transpose df : rectangular df → rectangular (transpose df).
Proof.
  intros [Hrows Hcells]. split; simpl.
  - by rewrite length_fmap, length_seq.
  - apply Forall_fmap, Forall_forall. intros j _. simpl.
    unfold column_at. by rewrite length_fmap.
Qed.

Lemma values_transpose_transpose df :
  rectangular df → values (transpose (transpose df)) = values df.
Proof.
  intros [Hrows Hcells]. simpl. apply list_eq. intros i.
  rewrite list_lookup_fmap.
  destruct (values df !! i) as [row|] eqn:Hrow.
  - rewrite lookup_seq_lt by (rewrite <- Hrows; by eapply lookup_lt_Some). simpl.
    f_equal. unfold column_at at 1. rewrite <- list_fmap_compose.
    rewrite Forall_forall in Hcells.
    rewrite <- (Hcells row) by (by eapply list_elem_of_lookup_2).
    rewrite <- (fmap_default_lookup_seq None row) at 2.
    apply list_fmap_ext. intros _ j _. simpl.
    unfold column_at. by rewrite list_lookup_fmap, Hrow.
  - apply lookup_ge_None in Hrow. by rewrite lookup_seq_ge by lia.
Qed.

(** A cell of a rectangular frame is there exactly when both labels
    are. *)
Lemma loc_rectangular df row col :
  rectangular df →
  is_Some (loc df row col) ↔ row ∈ index df ∧ col ∈ columns df.
Proof.
  intros [Hrows Hcells]. unfold loc. split.
  - intros [x Hx].
    destruct (position (index df) row) as [i|] eqn:Hi; [|done].
    destruct (position (columns df) col) as [j|] eqn:Hj; [|done].
    split; eapply list_elem_of_lookup_2, position_Some; done.
  - intros [[i Hi]%position_elem [j Hj]%position_elem]. rewrite Hi, Hj. simpl.
    destruct (lookup_lt_is_Some_2 (values df) i) as [r Hr].
    { rewrite Hrows. by eapply position_lt. }
    rewrite Hr. simpl. apply lookup_lt_is_Some_2.
    rewrite Forall_forall in Hcells.
    rewrite (Hcells r) by (by eapply list_elem_of_lookup_2).
    by eapply position_lt.
Qed.

Lemma NoDup_fast_unique seen l : NoDup (fast_unique seen l).
Proof.
  revert seen. induction l as [|x l IH]; intros seen; simpl; [constructor|].
  case_bool_decide; [done|]. constructor; [|done].
  rewrite fast_unique_elem, not_elem_of_cons. by intros (_ & ? & _).
Qed.

Lemma union_indexes_Permutation sort parsed :
  union_indexes sort parsed ≡ₚ union_keys parsed.
Proof. unfold union_indexes. destruct sort; [|done]. apply merge_sort_Permutation. Qed.

Lemma union_keys_elem parsed key :
  key ∈ union_keys parsed ↔ ∃ kv, kv ∈ parsed ∧ key ∈ fst <$> snd kv.
Proof.
  unfold union_keys. rewrite fast_unique_elem, list_elem_of_bind.
  split; [intros [(kv & ? & ?) _]; eauto|].
  intros (kv & ? & ?). split; [eauto|apply not_elem_of_nil].
Qed.

(** The cell of a label and a key, whatever the document: the value the
    first record under the label has for the key. *)
Lemma loc_report_first sort parsed label key :
  loc (transpose (from_dict sort parsed)) label key
  = (i ← position (fst <$> parsed) label;
     kv ← parsed !! i;
     if bool_decide (key ∈ union_keys parsed)
     then Some (dict_get (snd kv) key) else None).
Proof.
  unfold loc. rewrite index_report, columns_report.
  destruct (position (fst <$> parsed) label) as [i|] eqn:Hi; [simpl|done].
  pose proof (position_lt _ _ _ Hi) as Hlt. rewrite length_fmap in Hlt.
  destruct (lookup_lt_is_Some_2 parsed i Hlt) as [kv Hkv]. rewrite Hkv. simpl.
  case_bool_decide as Hkey.
  - destruct (position_elem (union_indexes sort parsed) key) as [j Hj].
    { by rewrite union_indexes_Permutation. }
    rewrite Hj. simpl.
    rewrite list_lookup_fmap, length_fmap, lookup_seq_lt by done. simpl.
    unfold column_at. rewrite !list_lookup_fmap.
    apply position_Some in Hj. rewrite Hj. simpl.
    by rewrite list_lookup_fmap, Hkv.
  - assert (position (union_indexes sort parsed) key = None) as ->; [|done].
    apply position_None. by rewrite union_indexes_Permutation.
Qed.

(** X14. [transpose] loses nothing: on a rectangular frame, such as
    the one [from_dict] builds, transposing twice gives the frame back,
    and the transposed frame is rectangular again. *)
Theorem transpose_twice df :
  rectangular df →
  transpose (transpose df) = df ∧ rectangular (transpose df).
Proof.
  intros Hdf. split; [|by apply rectangular_transpose].
  pose proof (values_transpose_transpose df Hdf) as Hvalues.
  destruct df as [idx cols vals]. unfold transpose in *. simpl in *. by f_equal.
Qed.

(** X15. The printed frame is rectangular, for every document, and a
    cell is there exactly for a label of the document and a key that
    occurs in some record: looking up any other label or key finds
    nothing. *)
Theorem report_cell_defined sort parsed label key :
  rectangular (transpose (from_dict sort parsed)) ∧
  (is_Some (loc (transpose (from_dict sort parsed)) label key) ↔
   label ∈ fst <$> parsed ∧ ∃ kv, kv ∈ parsed ∧ key ∈ fst <$> snd kv).
Proof.
  pose proof (rectangular_transpose _ (rectangular_from_dict sort parsed)) as Hrect.
  split; [done|]. rewrite (loc_rectangular _ _ _ Hrect).
  rewrite index_report, columns_report, union_indexes_Permutation.
  by rewrite union_keys_elem.
Qed.

(** X16. Whether pandas sorts the keys or not changes the order of the
    columns only: under every label and key the printed frame holds the
    same cell either way. *)
Theorem report_cells_whatever_the_order parsed label key :
  loc (transpose (from_dict true parsed)) label key
  = loc (transpose (from_dict false parsed)) label key.
Proof. by rewrite !loc_report_first. Qed.

(** X17. Every key is one column: the columns of the printed frame
    have no duplicates, however many records have the key; sorted or
    not they are the same keys; and when pandas sorts them they are in
    lexicographic order. *)
Theorem report_columns_each_key_once sort parsed :
  NoDup (columns (transpose (from_dict sort parsed))) ∧
  columns (transpose (from_dict true parsed))
    ≡ₚ columns (transpose (from_dict false parsed)) ∧
  Sorted String.le (columns (transpose (from_dict true parsed))).
Proof.
  rewrite !columns_report. split; [|split].
  - rewrite union_indexes_Permutation. apply NoDup_fast_unique.
  - by rewrite !union_indexes_Permutation.
  - apply Sorted_merge_sort, _.
Qed.

End FrameShape.

Section FrameShapeExamples.
Import Report ReportShape ReportExample.

(** The frame of the example, before it is transposed for printing. *)
Lemma transpose_twice_witness :
  transpose (transpose (from_dict true results)) = from_dict true results.
Proof.
  exact (proj1 (transpose_twice _ (rectangular_from_dict true results))).
Defined.

End FrameShapeExamples.

(** ** The provisioning cell, run again *)

Section ProvisionAgain.
Import AzureML.
Local Close Scope string_scope.
Implicit Types (ws : workspace) (service : list provisioning_state).

(** X18. Running the provisioning cell again after it has returned:
    the second run finds the cluster, sends no create request and does
    not wait, whatever [NODE_COUNT] it is given; the cluster keeps the
    configuration it has. *)
Theorem provision_again_creates_nothing service service' name NODE_COUNT NODE_COUNT' ws :
  let r1 := provision service name NODE_COUNT ws in
  let r2 := provision service' name NODE_COUNT' r1.2 in
  r1.1 = Returned name →
  r2.1 = Returned name ∧
  compute_targets r2.2 = compute_targets r1.2 ∧
  log r2.2 = log r1.2 ++ [GetComputeTarget name; GetStatus name].
Proof.
  intros r1 r2 Hfirst.
  assert (is_Some (compute_targets r1.2 !! name)) as [c Hc].
  { subst r1 r2. destruct (compute_targets ws !! name) as [c|] eqn:Hc.
    - rewrite (provision_hit _ _ _ _ _ Hc). simpl. eauto.
    - rewrite (provision_miss _ _ _ _ Hc) in *. cbn zeta in *.
      destruct (poll Creating service) as [[[s rest] n]|]; [|done].
      simpl. rewrite lookup_insert_eq. eauto. }
  subst r2. by rewrite (provision_hit _ _ _ _ _ Hc).
Qed.

End ProvisionAgain.

(** ** From the provisioning cell to the submission cell *)

Section CellsInSequence.
Import AzureML.
Local Close Scope string_scope.
Implicit Types (ws : workspace) (service : list provisioning_state).



End CellsInSequence.

Section ProvisionAgainExamples.
Import AzureML WorkspaceExample.
Local Close Scope string_scope.

(** A first run that creates the cluster for 4 nodes, and a second run
    that asks for 8. *)
Lemma provision_again_creates_nothing_witness :
  let r1 := provision [Creating; Succeeded] cluster_name 4 without_cluster in
  let r2 := provision [] cluster_name 8 r1.2 in
  r2.1 = Returned cluster_name ∧
  (max_nodes ∘ configuration <$> compute_targets r2.2 !! cluster_name) = Some 4 ∧
  log r2.2 = log r1.2 ++ [GetComputeTarget cluster_name; GetStatus cluster_name].
Proof.
  intros r1 r2.
  destruct (provision_again_creates_nothing [Creating; Succeeded] [] cluster_name 4 8
              without_cluster eq_refl) as (Hreturned & Hclusters & Hlog).
  split; [exact Hreturned|]. split; [|exact Hlog].
  etrans; [|reflexivity].
  exact (f_equal (λ m, max_nodes ∘ configuration <$> m !! cluster_name) Hclusters).
Defined.


End ProvisionAgainExamples.
